(** * pypolibox: the lexicalization core, embedded in Rocq

    A shallow embedding of [lexicalization.py]: the atomic generators
    ([gen_num], [gen_art], ...), the structural combinators
    ([gen_enumeration], [gen_komma_enumeration], [gen_nested_given_names])
    and the entity lexicalizers ([lexicalize_authors], [lexicalize_titles],
    [lexicalize_keywords], [lexicalize_pages], [lexicalize_plang],
    [lexicalize_codeexamples], [lexicalize_exercises]).

    Python values are modelled as follows.
    - [str] is [string]; the source file is UTF-8 encoded Python 2, so a
      literal such as "präs" is the same byte string here and there.
    - [int] is [Z]; [len] is [Z.of_nat (length _)].
    - an exception is a value of [exn]; a computation that may raise is a
      [res]; a computation that also mutates its argument objects is an
      [M] over the record of these objects, and the objects' final values
      survive an exception, as in Python.
    - [random.choice] takes its draw as an explicit argument. *)

From Stdlib Require Import String Ascii List ZArith Lia Bool Arith.
From Stdlib Require Import DecimalString.
From ExtLib Require Import Structures.Monad.
From Equations Require Import Equations.
Import ListNotations.
Import MonadNotation.
Open Scope string_scope.
Open Scope monad_scope.

Set Warnings "-register-all".

(** ** Python preliminaries *)

Module Py.

Inductive exn : Type :=
| AssertionError (msg : string)
| TypeError
| AttributeError
| KeyError (key : string)
| IndexError
| ValueError
| UnboundLocalError.

Inductive res (A : Type) : Type :=
| Ok (a : A)
| Raise (e : exn).
Arguments Ok {A} a.
Arguments Raise {A} e.

Definition rbind {A B} (c : res A) (k : A -> res B) : res B :=
  match c with
  | Ok a => k a
  | Raise e => Raise e
  end.

(** [assert cond, msg] *)
Definition assert (cond : bool) (msg : string) : res unit :=
  if cond then Ok tt else Raise (AssertionError msg).

Fixpoint mapM {A B} (f : A -> res B) (l : list A) : res (list B) :=
  match l with
  | [] => Ok []
  | x :: xs =>
      rbind (f x) (fun y => rbind (mapM f xs) (fun ys => Ok (y :: ys)))
  end.

(** State and exceptions: the state holds the objects a function received
    by reference. *)
Definition M (S A : Type) : Type := S -> res A * S.

Definition mret {S A} (a : A) : M S A := fun s => (Ok a, s).

Definition mbind {S A B} (c : M S A) (k : A -> M S B) : M S B :=
  fun s =>
    match c s with
    | (Ok a, s') => k a s'
    | (Raise e, s') => (Raise e, s')
    end.

Definition lift {S A} (c : res A) : M S A := fun s => (c, s).

Definition gets {S A} (f : S -> A) : M S A := fun s => (Ok (f s), s).

Definition modify {S} (f : S -> S) : M S unit := fun s => (Ok tt, f s).

(** [x in (a, b, ...)] on strings *)
Definition str_in (x : string) (xs : list string) : bool :=
  existsb (String.eqb x) xs.

(** [str(n)] for a non-negative index *)
Definition str (n : nat) : string :=
  NilEmpty.string_of_uint (Nat.to_uint n).

(** [s.zfill(2)] *)
Definition zfill2 (s : string) : string :=
  match String.length s with
  | 0 => "00"
  | 1 => "0" ++ s
  | _ => s
  end.

(** [len(l)] *)
Definition len {A} (l : list A) : Z := Z.of_nat (length l).

(** [l[-1]] *)
Fixpoint index_last {A} (l : list A) : res A :=
  match l with
  | [] => Raise IndexError
  | [x] => Ok x
  | _ :: xs => index_last xs
  end.

(** [l[:-1]] *)
Definition but_last {A} (l : list A) : list A := removelast l.

(** [random.choice(l)], the draw [rnd] given *)
Definition random_choice (rnd : nat) (l : list string) : string :=
  nth (rnd mod length l) l "".

Definition is_space (c : ascii) : bool :=
  match nat_of_ascii c with
  | 9 | 10 | 11 | 12 | 13 | 32 => true
  | _ => false
  end.

(** [s.split()]: the maximal runs of non-whitespace characters *)
Fixpoint split_from (s : string) (tok : string) : list string :=
  match s with
  | EmptyString => if (tok =? "")%string then [] else [tok]
  | String c s' =>
      if is_space c
      then if (tok =? "")%string then split_from s' ""
           else tok :: split_from s' ""
      else split_from s' (tok ++ String c "")
  end.

Definition split (s : string) : list string := split_from s "".

(** [s.replace(" ", "_")] *)
Fixpoint replace_space (s : string) : string :=
  match s with
  | EmptyString => EmptyString
  | String c s' =>
      String (if Ascii.eqb c " "%char then "_"%char else c) (replace_space s')
  end.

(** An argument documented as [int] or [str]. *)
Inductive int_or_str : Type :=
| PyInt (z : Z)
| PyStr (s : string).

Definition digit_of (c : ascii) : option Z :=
  let n := nat_of_ascii c in
  if Nat.leb 48 n && Nat.leb n 57 then Some (Z.of_nat (n - 48)) else None.

Fixpoint digits_from (s : string) (acc : Z) : option Z :=
  match s with
  | EmptyString => Some acc
  | String c s' =>
      match digit_of c with
      | Some d => digits_from s' (10 * acc + d)
      | None => None
      end
  end.

Fixpoint lstrip (s : string) : string :=
  match s with
  | String c s' => if is_space c then lstrip s' else s
  | EmptyString => EmptyString
  end.

Fixpoint rstrip (s : string) : string :=
  match s with
  | EmptyString => EmptyString
  | String c s' =>
      match rstrip s' with
      | EmptyString => if is_space c then EmptyString else String c EmptyString
      | r => String c r
      end
  end.

Definition unsigned_literal (s : string) : res Z :=
  match s with
  | EmptyString => Raise ValueError
  | _ => match digits_from s 0 with
         | Some z => Ok z
         | None => Raise ValueError
         end
  end.

(** [int(x)]: an [int] is returned as it is; a [str] is read as an
    optionally signed decimal literal, surrounding whitespace ignored. *)
Definition int (x : int_or_str) : res Z :=
  match x with
  | PyInt z => Ok z
  | PyStr s =>
      match rstrip (lstrip s) with
      | String "-"%char s' => rbind (unsigned_literal s') (fun z => Ok (- z)%Z)
      | String "+"%char s' => unsigned_literal s'
      | s' => unsigned_literal s'
      end
  end.

(** [str(z)] for an [int] *)
Definition str_int (z : Z) : string :=
  NilEmpty.string_of_int (Z.to_int z).

Definition is_digit (c : ascii) : bool :=
  match digit_of c with Some _ => true | None => false end.

Fixpoint take_digits (s : string) : string :=
  match s with
  | String c s' => if is_digit c then String c (take_digits s') else EmptyString
  | EmptyString => EmptyString
  end.

Fixpoint drop_digits (s : string) : string :=
  match s with
  | String c s' => if is_digit c then drop_digits s' else s
  | EmptyString => EmptyString
  end.

(** [re.compile(pattern).match(key)] for a pattern made of one or more
    digits and a literal [suffix] ("\d+" then the suffix): the match is
    anchored at the start of [key], and [.group()] is the matched text. *)
Definition match_digits_then (suffix key : string) : option string :=
  match take_digits key with
  | EmptyString => None
  | ds => if String.prefix suffix (drop_digits key)
          then Some (ds ++ suffix) else None
  end.

End Py.

Import Py.

#[export] Instance Monad_res : Monad res :=
  {| ret := fun _ a => Ok a; bind := fun _ _ c k => rbind c k |}.

#[export] Instance Monad_M (S : Type) : Monad (M S) :=
  {| ret := fun _ a => mret a; bind := fun _ _ c k => mbind c k |}.


(** ** The tree node collaborator *)

Module hlds.

(** Modelled from the spec: the module [hlds] ([Diamond], [create_diamond],
    [add_mode_suffix] and the methods of [Diamond]) is not among the
    sources. The spec gives a node a mode label, a category label, a
    lexical anchor (possibly empty) and an ordered sequence of child nodes.
    [lexicalization.py] addresses a child by a key made of its position
    written with two digits, two underscores and the child's mode
    ("02__NUM"; the pattern "\d+__ART"), so each child is kept under its
    key, in order. *)
Inductive Diamond : Type :=
| Dia (mode nom prop : string) (subs : list (string * Diamond)).

Definition d_mode (d : Diamond) : string := let (m, _, _, _) := d in m.
Definition d_nom (d : Diamond) : string := let (_, n, _, _) := d in n.
(** [d["prop"]] *)
Definition d_prop (d : Diamond) : string := let (_, _, p, _) := d in p.
Definition d_subs (d : Diamond) : list (string * Diamond) :=
  let (_, _, _, cs) := d in cs.
Definition children (d : Diamond) : list Diamond := map snd (d_subs d).

(** Modelled from the spec: the key of the child at position [i], as
    [lexicalization.py] spells it out. *)
Definition identifier (i : nat) (mode : string) : string :=
  zfill2 (str i) ++ "__" ++ mode.

Fixpoint number_from (i : nat) (ds : list Diamond) : list (string * Diamond) :=
  match ds with
  | [] => []
  | d :: ds' => (identifier i (d_mode d), d) :: number_from (S i) ds'
  end.

(** Modelled from the spec: construct(mode, category, lexicalAnchor,
    children) -> node; the children keep their order. *)
Definition create_diamond (mode nom prop : string)
    (nested_diamonds_list : list Diamond) : Diamond :=
  Dia mode nom prop (number_from 0 nested_diamonds_list).

(** Modelled from the spec: mutate-mode(node, newMode). *)
Definition change_mode (d : Diamond) (mode : string) : Diamond :=
  Dia mode (d_nom d) (d_prop d) (d_subs d).

Definition relabel (sub : Diamond) (mode : option string) : Diamond :=
  match mode with
  | Some m => change_mode sub m
  | None => sub
  end.

(** Modelled from the spec: insert-child(node, index, child), with the
    optional relabeling of the child; the children are numbered anew.
    The result is the node and the child as the call leaves them. *)
Definition insert_subdiamond (d : Diamond) (index : nat) (sub : Diamond)
    (mode : option string) : Diamond * Diamond :=
  let sub' := relabel sub mode in
  (Dia (d_mode d) (d_nom d) (d_prop d)
       (number_from 0 (firstn index (children d) ++ sub' :: skipn index (children d))),
   sub').

(** Modelled from the spec: prepend-child(node, child[, mode]). *)
Definition prepend_subdiamond (d sub : Diamond) (mode : option string)
    : Diamond * Diamond :=
  insert_subdiamond d 0 sub mode.

(** Modelled from the spec: append-child(node, child[, mode]); the child
    takes the next position. *)
Definition append_subdiamond (d sub : Diamond) (mode : option string)
    : Diamond * Diamond :=
  let sub' := relabel sub mode in
  (Dia (d_mode d) (d_nom d) (d_prop d)
       (d_subs d ++ [(identifier (length (d_subs d)) (d_mode sub'), sub')]),
   sub').

(** Modelled from the spec: the labels of the children of a node. The
    attributes of the node itself have names that start with no digit. *)
Definition keys (d : Diamond) : list string := map fst (d_subs d).

(** [key in d] *)
Definition has_key (d : Diamond) (key : string) : bool :=
  existsb (String.eqb key) (keys d).

Fixpoint lookup (key : string) (cs : list (string * Diamond)) : option Diamond :=
  match cs with
  | [] => None
  | (k, c) :: cs' => if (k =? key)%string then Some c else lookup key cs'
  end.

(** Modelled from the spec: key lookup, [d[key]]. *)
Definition getitem (d : Diamond) (key : string) : res Diamond :=
  match lookup key (d_subs d) with
  | Some c => Ok c
  | None => Raise (KeyError key)
  end.

Fixpoint remove_key (key : string) (cs : list (string * Diamond))
    : list (string * Diamond) :=
  match cs with
  | [] => []
  | (k, c) :: cs' =>
      if (k =? key)%string then cs' else (k, c) :: remove_key key cs'
  end.

(** Modelled from the spec: deletion by label, [d.pop(key)]. *)
Definition pop (d : Diamond) (key : string) : res Diamond :=
  if has_key d key
  then Ok (Dia (d_mode d) (d_nom d) (d_prop d) (remove_key key (d_subs d)))
  else Raise (KeyError key).

(** Modelled from the spec: mode-suffix propagation. The tree is
    traversed and every node whose mode is exactly the target gets a
    number appended to its key; the nodes of one parent that carry the
    mode are numbered 1, 2, ... in their order. *)
Fixpoint add_mode_suffix (d : Diamond) (mode : string) : Diamond :=
  match d with
  | Dia m n p cs =>
      Dia m n p
        ((fix go (cs : list (string * Diamond)) (i : nat) {struct cs} :=
            match cs with
            | [] => []
            | (k, c) :: cs' =>
                if (d_mode c =? mode)%string
                then (k ++ str i, add_mode_suffix c mode) :: go cs' (S i)
                else (k, add_mode_suffix c mode) :: go cs' i
            end) cs 1)
  end.

End hlds.

Import hlds.

(** Modelled from the spec: [util.sql_array_to_list] is not among the
    sources. A packed string such as "[Ada][Scheme]" is decoded into the
    ordered list of its bracketed tokens. *)
Fixpoint sql_array_from (s : string) (tok : option string) : list string :=
  match s with
  | EmptyString => []
  | String c s' =>
      match tok with
      | None => if Ascii.eqb c "["%char then sql_array_from s' (Some "")
                else sql_array_from s' None
      | Some t => if Ascii.eqb c "]"%char then t :: sql_array_from s' None
                  else sql_array_from s' (Some (t ++ String c ""))
      end
  end.

Definition sql_array_to_list (sql_array : string) : list string :=
  sql_array_from sql_array None.

(** Modelled from the spec: [util.ensure_unicode] is not among the sources;
    strings are byte strings throughout, so it returns its argument. *)
Definition ensure_unicode (s : string) : string := s.

(** ** lexicalization.py *)

(** What [gen_enumeration] and [gen_nested_given_names] return: the empty
    list [[]] or a [Diamond]. *)
Inductive pyobj : Type :=
| EmptyList
| Node (d : Diamond).

(** [bool(x)] for an argument that is a [Diamond] or [None]: a [Diamond]
    always holds its mode, hence is a non-empty mapping. *)
Definition truthy (x : option Diamond) : bool :=
  match x with
  | Some _ => true
  | None => false
  end.

(** A value handed to [create_diamond] as a child, or subscripted as a
    node: the empty list is no node. *)
Definition as_child (x : pyobj) : res Diamond :=
  match x with
  | Node d => Ok d
  | EmptyList => Raise TypeError
  end.

(** A value whose [Diamond] method is called: the empty list has none. *)
Definition as_receiver (x : pyobj) : res Diamond :=
  match x with
  | Node d => Ok d
  | EmptyList => Raise AttributeError
  end.

(** *** Atomic generators *)

Definition gen_art (article_type : string) : Diamond :=
  create_diamond "ART" "sem-obj" article_type [].

Definition gen_gender (genus : string) : Diamond :=
  create_diamond "GEN" "" genus [].

Definition gen_num (numerus : int_or_str) : res Diamond :=
  numerus <- match numerus with
             | PyInt n =>
                 assert (n >? 0)%Z "count has to be >= 1" ;;
                 if (n =? 1)%Z then ret (PyStr "sing")
                 else if (n >? 1)%Z then ret (PyStr "plur")
                 else ret numerus
             | PyStr _ => ret numerus
             end ;;
  match numerus with
  | PyStr s =>
      assert (str_in s ["sing"; "plur"]) "" ;;
      ret (create_diamond "NUM" "" s [])
  | PyInt _ => Raise (AssertionError "")
  end.

Definition gen_mod (modifier modifier_type : string) : Diamond :=
  create_diamond "MOD" modifier_type modifier [].

Definition gen_prep (preposition preposition_type : string) : Diamond :=
  create_diamond "PRÄP" preposition_type preposition [].

Definition gen_tempus (tense : string) : Diamond :=
  create_diamond "TEMP:tempus" "" tense [].

Definition gen_komp (modality : string) : res Diamond :=
  assert (str_in modality ["pos"; "komp"; "super"]) "" ;;
  ret (create_diamond "KOMP" "" modality []).

Definition gen_pronoun (person : Z) (pronoun_type gender numerus mode : string)
    : res Diamond :=
  assert (existsb (Z.eqb person) [1; 2; 3]%Z) "" ;;
  assert (str_in gender ["masc"; "fem"; "neut"]) "" ;;
  assert (str_in numerus ["sing"; "plur"]) "" ;;
  let person_prop_str := str_int person ++ "te" in
  let pers := create_diamond "PERS" "" person_prop_str [] in
  let pro := create_diamond "PRO" "" pronoun_type [] in
  let gen := gen_gender gender in
  num <- gen_num (PyStr numerus) ;;
  ret (create_diamond mode "sem-obj" "" [pers; pro; gen; num]).

Definition gen_personal_pronoun (count : Z) (gender : string) (person : Z)
    (mode : string) : res Diamond :=
  let gender := if (count >? 1)%Z || (gender =? "")%string then "fem" else gender in
  let numerus := if (count =? 1)%Z then "sing" else "plur" in
  gen_pronoun person "perspro" gender numerus mode.

(** *** Structural combinators *)

(** The tests [len(diamonds_list) == 0], [== 1], [== 2] and [> 2] are the
    four patterns; [diamonds_list[:-1]] is [but_last] and
    [diamonds_list[-1]] is [index_last]. *)
Equations? gen_komma_enumeration (diamonds_list : list Diamond) (mode : string)
    : res pyobj by wf (length diamonds_list) lt :=
  gen_komma_enumeration [] mode := ret EmptyList;
  gen_komma_enumeration [d] mode := ret (Node d);
  gen_komma_enumeration [d1; d2] mode :=
    ret (Node (create_diamond mode "konjunktion" "komma" [d1; d2]));
  gen_komma_enumeration (d1 :: d2 :: d3 :: ds) mode :=
    nested_komma_enum <- gen_komma_enumeration (but_last (d1 :: d2 :: d3 :: ds)) mode ;;
    final <- index_last (d1 :: d2 :: d3 :: ds) ;;
    nested <- as_child nested_komma_enum ;;
    ret (Node (create_diamond mode "konjunktion" "komma" [nested; final])).
Proof.
  assert (H : length (removelast (d3 :: ds)) < length (d3 :: ds)).
  { destruct (@exists_last _ (d3 :: ds)) as [l' [a E]]; [discriminate|].
    rewrite E, removelast_last, length_app. simpl. lia. }
  unfold but_last in *. simpl in H. lia.
Qed.

(** [len(diamonds_list) is n] compares like [==] on these small
    integers. *)
Definition gen_enumeration (diamonds_list : list Diamond) (mode : string)
    : res pyobj :=
  match diamonds_list with
  | [] => ret EmptyList
  | [d] => ret (Node d)
  | [_; _] => ret (Node (create_diamond mode "konjunktion" "und" diamonds_list))
  | _ =>
      nested_komma_enum <- gen_komma_enumeration (but_last diamonds_list) mode ;;
      final <- index_last diamonds_list ;;
      nested <- as_child nested_komma_enum ;;
      ret (Node (create_diamond mode "konjunktion" "und" [nested; final]))
  end.

Definition __split_name (name : string) : res (list string * string) :=
  let name_components := split name in
  last_name <- index_last name_components ;;
  ret (but_last name_components, last_name).

(** [if given_names:] is the test for a non-empty list; the two branches on
    [type(nested_diamond)] are the two cases of [pyobj]. *)
Equations? gen_nested_given_names (given_names : list string) : res pyobj
    by wf (length given_names) lt :=
  gen_nested_given_names [] := ret EmptyList;
  gen_nested_given_names (n :: ns) :=
    let preceding_names := but_last (n :: ns) in
    last_given_name <- index_last (n :: ns) ;;
    nested_diamond <- gen_nested_given_names preceding_names ;;
    match nested_diamond with
    | EmptyList => ret (Node (create_diamond "N1" "vorname" last_given_name []))
    | Node nested =>
        ret (Node (create_diamond "N1" "vorname" last_given_name [nested]))
    end.
Proof.
  assert (H : length (removelast (n :: ns)) < length (n :: ns)).
  { destruct (@exists_last _ (n :: ns)) as [l' [a E]]; [discriminate|].
    rewrite E, removelast_last, length_app. simpl. lia. }
  subst preceding_names. unfold but_last in *. simpl in H |- *. lia.
Qed.

(** *** Generators of noun phrases *)

Definition gen_title (book_title : string) : Diamond :=
  let book_title := ensure_unicode book_title in
  let book_title := replace_space book_title in
  let opening_bracket := create_diamond "99" "anführungöffnen" "anföffn" [] in
  let closing_bracket := create_diamond "66" "anführungschließen" "anfschl" [] in
  create_diamond "NP" "buchtitel" book_title [opening_bracket; closing_bracket].

Definition gen_abstract_title (number_of_books : Z) : res Diamond :=
  num <- gen_num (PyInt number_of_books) ;;
  let art := gen_art "def" in
  ret (create_diamond "" "artefaktum" "Buch" [num; art]).

Definition gen_abstract_autor (num_of_authors : Z) : res Diamond :=
  let art := gen_art "def" in
  let gen := gen_gender "mask" in
  num <- gen_num (PyInt num_of_authors) ;;
  ret (create_diamond "" "bel-phys-körper" "Autor" [art; gen; num]).

Definition gen_lastname_only (name : string) : res Diamond :=
  '(_, lastname_str) <- __split_name name ;;
  ret (create_diamond "NP" "nachname" lastname_str []).

Definition gen_complete_name (name : string) : res Diamond :=
  '(given_names, lastname_str) <- __split_name name ;;
  match given_names with
  | _ :: _ =>
      given_names_diamond <- gen_nested_given_names given_names ;;
      given_names_diamond <- as_child given_names_diamond ;;
      ret (create_diamond "NP" "nachname" lastname_str [given_names_diamond])
  | [] => ret (create_diamond "NP" "nachname" lastname_str [])
  end.

Definition gen_abstract_keywords (num_of_keywords : Z) : res Diamond :=
  num <- gen_num (PyInt num_of_keywords) ;;
  let art := gen_art "def" in
  ret (create_diamond "" "art" "Thema" [num; art]).

(** The inner function [gen_keyword] of [gen_keywords]. *)
Definition gen_keyword (keyword mode : string) : res Diamond :=
  let fixed_keyword := replace_space keyword in
  num <- gen_num (PyStr "sing") ;;
  ret (create_diamond mode "sorte" fixed_keyword [num]).

Definition gen_keywords (keywords : list string) (mode : string) : res Diamond :=
  let num_of_keywords := len keywords in
  keyword_description <- gen_abstract_keywords num_of_keywords ;;
  result_diamond <-
    match keywords with
    | [keyword] => d <- gen_keyword keyword mode ;; ret (Node d)
    | _ :: _ :: _ =>
        keyword_diamonds <- mapM (fun kw => gen_keyword kw mode) keywords ;;
        gen_enumeration keyword_diamonds mode
    | [] => Raise UnboundLocalError
    end ;;
  result_diamond <- as_child result_diamond ;;
  let '(keyword_description, _) :=
    append_subdiamond keyword_description result_diamond (Some "NOMERG") in
  ret (add_mode_suffix keyword_description mode).

Definition gen_plang (plang mode : string) : res Diamond :=
  assert (negb (plang =? "")%string)
         "at least one programming language should be defined" ;;
  let proglangs := sql_array_to_list plang in
  let num_of_proglangs := len proglangs in
  num <- gen_num (PyInt num_of_proglangs) ;;
  let art := gen_art "def" in
  proglang_diamonds <-
    mapM (fun proglang =>
            sing <- gen_num (PyStr "sing") ;;
            ret (create_diamond "N" "sorte" proglang [sing])) proglangs ;;
  proglang_enum <- gen_enumeration proglang_diamonds "N" ;;
  proglang_enum <- as_receiver proglang_enum ;;
  let proglang_enum := change_mode proglang_enum "NOMERG" in
  let proglang_enum := add_mode_suffix proglang_enum "N" in
  ret (create_diamond mode "art" "Programmiersprache" [num; art; proglang_enum]).

Definition __sing_or_plur (lexicalized_authors : Diamond) : res string :=
  if (d_prop lexicalized_authors =? "und")%string then ret "plur"
  else if has_key lexicalized_authors "02__NUM"
  then num <- getitem lexicalized_authors "02__NUM" ;; ret (d_prop num)
  else ret "sing".

(** *** Entity lexicalizers *)

(** [assert isinstance(authors, list)] holds by typing. [add_mode_suffix]
    is called on what [gen_enumeration] returned, which is the empty list
    for no author. *)
Definition lexicalize_authors (authors : list string) (realize : string)
    : res Diamond :=
  assert (str_in realize ["abstract"; "lastnames"; "complete"])
         "choose 1 of these author realizations: abstract, lastnames, complete" ;;
  authors_diamond <-
    (if (realize =? "abstract")%string then
       let num_of_authors := len authors in
       d <- gen_abstract_autor num_of_authors ;; ret (Node d)
     else if (realize =? "lastnames")%string then
       lastnames <- mapM gen_lastname_only authors ;;
       gen_enumeration lastnames "NP"
     else if (realize =? "complete")%string then
       complete_names <- mapM gen_complete_name authors ;;
       gen_enumeration complete_names "NP"
     else Raise UnboundLocalError) ;;
  authors_diamond <- as_receiver authors_diamond ;;
  let authors_diamond := add_mode_suffix authors_diamond "NP" in
  let authors_diamond := add_mode_suffix authors_diamond "N" in
  ret authors_diamond.

(** The loop of [lexicalize_titles] over [title_diamond.keys()] that pops
    the key matched by "\d+__ART". *)
Fixpoint pop_articles (title_diamond : Diamond) (ks : list string) : res Diamond :=
  match ks with
  | [] => ret title_diamond
  | key :: ks' =>
      match match_digits_then "__ART" key with
      | Some article_key =>
          title_diamond <- pop title_diamond article_key ;;
          pop_articles title_diamond ks'
      | None => pop_articles title_diamond ks'
      end
  end.

Definition is_some {A} (x : option A) : bool :=
  match x with
  | Some _ => true
  | None => false
  end.

Definition is_str (x : option string) (s : string) : bool :=
  match x with
  | Some y => (y =? s)%string
  | None => false
  end.

(** The state is the object passed as [lexicalized_authors]; [rnd1] and
    [rnd2] are the two draws of [random.choice].
    [assert isinstance(book_titles, list)] holds by typing. *)
Definition lexicalize_titles (book_titles : list string) (realize : string)
    (authors_realize : option string) (rnd1 rnd2 : nat)
    : M (option Diamond) Diamond :=
  lift (assert (str_in realize ["abstract"; "complete"; "pronoun"; "random"]) "") ;;
  lift (assert (match authors_realize with
                | None => true
                | Some a => str_in a ["possessive"; "preposition"; "random"]
                end) "") ;;
  let num_of_titles := len book_titles in
  let realize :=
    if (realize =? "random")%string then
      if is_some authors_realize
      then random_choice rnd1 ["abstract"; "complete"]
      else random_choice rnd1 ["abstract"; "complete"; "pronoun"]
    else realize in
  lexicalized_authors <- gets (fun s => s) ;;
  title_diamond <-
    (if (realize =? "abstract")%string then
       lift (gen_abstract_title num_of_titles)
     else if (realize =? "pronoun")%string then
       lift (assert (negb (is_some lexicalized_authors))
               "can't realize title as pronoun with an author, e.g. 'Chomskys es'") ;;
       lift (gen_personal_pronoun num_of_titles "neut" 3 "")
     else if (realize =? "complete")%string then
       let realized_titles := map gen_title book_titles in
       titles_enum <- lift (gen_enumeration realized_titles "NP") ;;
       titles_enum <- lift (as_receiver titles_enum) ;;
       ret (add_mode_suffix titles_enum "NP")
     else lift (Raise UnboundLocalError)) ;;
  match lexicalized_authors with
  | Some authors =>
      authors_realize <-
        (if is_str authors_realize "random" then
           number <- lift (__sing_or_plur authors) ;;
           if (number =? "sing")%string
           then ret (Some (random_choice rnd2 ["possessive"; "preposition"]))
           else ret (Some "preposition")
         else ret authors_realize) ;;
      if is_str authors_realize "possessive" then
        number <- lift (__sing_or_plur authors) ;;
        lift (assert (number =? "sing")%string
                "can't realize possesive form with more than one author") ;;
        let '(title_diamond, authors) :=
          append_subdiamond title_diamond authors (Some "ASS") in
        modify (fun _ => Some authors) ;;
        lift (pop_articles title_diamond (keys title_diamond))
      else if is_str authors_realize "preposition" then
        let preposition_diamond := gen_prep "von" "zugehörigkeit" in
        let '(authors, _) := prepend_subdiamond authors preposition_diamond None in
        modify (fun _ => Some authors) ;;
        let '(title_diamond, authors) :=
          append_subdiamond title_diamond authors (Some "ATTRIB") in
        modify (fun _ => Some authors) ;;
        ret title_diamond
      else ret title_diamond
  | None => ret title_diamond
  end.

(** The objects passed as [lexicalized_title] ([lexicalized_titles] in
    [lexicalize_plang]) and [lexicalized_authors]: two distinct objects, or
    [None]. *)
Record agent_args : Type := AgentArgs {
  lexicalized_title : option Diamond;
  lexicalized_authors : option Diamond
}.

(** The lines shared by [lexicalize_keywords] and [lexicalize_plang]:
<<
    if lexicalized_title:
        agens = lexicalized_title
    elif lexicalized_authors:
        agens = lexicalized_authors

    agens.change_mode("AGENS")
>>
    [agens] is the object itself, so the relabeling shows in the state. *)
Definition relabel_agens : M agent_args Diamond :=
  args <- gets (fun s => s) ;;
  match lexicalized_title args, lexicalized_authors args with
  | Some title, _ =>
      let agens := change_mode title "AGENS" in
      modify (fun s => AgentArgs (Some agens) (lexicalized_authors s)) ;;
      ret agens
  | None, Some authors =>
      let agens := change_mode authors "AGENS" in
      modify (fun s => AgentArgs (lexicalized_title s) (Some agens)) ;;
      ret agens
  | None, None => lift (Raise UnboundLocalError)
  end.

(** A lexeme other than the four named ones falls through every branch:
    the function returns [None]. *)
Definition lexicalize_keywords (keywords : list string) (realize lexeme : string)
    : M agent_args (option Diamond) :=
  lift (assert (str_in realize ["abstract"; "complete"])
          "choose 1 of these keyword realizations: abstract, complete") ;;
  let num_of_keywords := len keywords in
  patiens <-
    lift (if (realize =? "abstract")%string
          then gen_abstract_keywords num_of_keywords
          else if (realize =? "complete")%string
          then gen_keywords keywords "N"
          else Raise UnboundLocalError) ;;
  let patiens := change_mode patiens "PATIENS" in
  title <- gets lexicalized_title ;;
  authors <- gets lexicalized_authors ;;
  lift (assert (truthy authors || truthy title)
          "keywords need a lexicalized title or author(s) to be realized") ;;
  agens <- relabel_agens ;;
  let temp := gen_tempus "präs" in
  if str_in lexeme ["behandeln"; "beschreiben"] then
    ret (Some (create_diamond "" "handlung" lexeme [temp; agens; patiens]))
  else if (lexeme =? "eingehen")%string then
    let preposition := gen_prep "auf" "zusammenhang" in
    let '(patiens, _) := insert_subdiamond patiens 1 preposition None in
    let aux := create_diamond "AUX" "partverbstamm" "ein-gehen"
                 [temp; agens; patiens] in
    ret (Some (create_diamond "" "infinitum" "ein-X-trans" [aux]))
  else if (lexeme =? "aufgreifen")%string then
    let aux := create_diamond "AUX" "partverbstamm" "auf-greifen"
                 [temp; agens; patiens] in
    ret (Some (create_diamond "" "infinitum" "auf-X-trans" [aux]))
  else ret None.

(** The state is the object passed as [lexicalized_title]; [rnd] is the
    draw of [random.choice]. No branch is taken for a lexeme outside
    "umfang", "umfassen", "länge" and "random": the function returns
    [None]. *)
Definition lexicalize_pages (pages : int_or_str) (lexeme : string) (rnd : nat)
    : M Diamond (option Diamond) :=
  let pages := match pages with
               | PyInt z => str_int z
               | PyStr s => s
               end in
  let tempus := gen_tempus "präs" in
  modify (fun title => change_mode title "AGENS") ;;
  pages_num <- lift (gen_num (PyStr "plur")) ;;
  let pages_mod := gen_mod pages "kardinal" in
  let pages_nom := "artefaktum" in
  let pages_prop := "Seite" in
  let lexeme :=
    if (lexeme =? "random")%string
    then random_choice rnd ["umfang"; "umfassen"; "länge"]
    else lexeme in
  if (lexeme =? "umfang")%string then
    let preposition := gen_prep "von" "zugehörigkeit" in
    let attrib := create_diamond "ATTRIB" pages_nom pages_prop
                    [pages_num; preposition; pages_mod] in
    patiens_num <- lift (gen_num (PyStr "sing")) ;;
    let art := gen_art "indef" in
    let patiens := create_diamond "PATIENS" "abstraktum" "Umfang"
                     [patiens_num; art; attrib] in
    title <- gets (fun s => s) ;;
    ret (Some (create_diamond "" "durativ" "haben" [tempus; title; patiens]))
  else if (lexeme =? "umfassen")%string then
    let patiens := create_diamond "PATIENS" pages_nom pages_prop
                     [pages_num; pages_mod] in
    title <- gets (fun s => s) ;;
    ret (Some (create_diamond "" "handlung" "umfassen" [tempus; title; patiens]))
  else if (lexeme =? "länge")%string then
    modify (fun title => change_mode title "SUBJ") ;;
    pos <- lift (gen_komp "pos") ;;
    let komp_mod := create_diamond "MOD" "eigenschaft" "lang" [pos] in
    let prkompl := create_diamond "PRKOMPL" pages_nom pages_prop
                     [pages_num; pages_mod; komp_mod] in
    title <- gets (fun s => s) ;;
    ret (Some (create_diamond "" "prädikation" "sein-kop" [tempus; title; prkompl]))
  else ret None.

(** A [realize] other than "embedded" and "complete" passes the assertion
    when a title or authors are given, and the function returns [None]. *)
Definition lexicalize_plang (plang realize : string)
    : M agent_args (option Diamond) :=
  titles <- gets lexicalized_title ;;
  authors <- gets lexicalized_authors ;;
  lift (assert (truthy titles || truthy authors || (realize =? "embedded")%string)
          "requires either a lexicalized title, a lexicalized set of authors or realize parameter == 'embedded'") ;;
  if (realize =? "embedded")%string then
    d <- lift (gen_plang plang "N") ;; ret (Some d)
  else if (realize =? "complete")%string then
    let temp := gen_tempus "präs" in
    agens <- relabel_agens ;;
    patiens <- lift (gen_plang plang "PATIENS") ;;
    ret (Some (create_diamond "" "handlung" "verwenden" [temp; agens; patiens]))
  else ret None.

(** The objects passed to [lexicalize_codeexamples] as [lexicalized_title]
    and [lexicalized_plang]. *)
Record example_args : Type := ExampleArgs {
  example_title : Diamond;
  lexicalized_plang : option Diamond
}.

Definition lexicalize_codeexamples (examples : int_or_str) (lexeme : string)
    : M example_args Diamond :=
  lift (assert (str_in lexeme ["beinhalten"; "enthalten"]) "") ;;
  examples <- lift (int examples) ;;
  let temp := gen_tempus "präs" in
  modify (fun s => ExampleArgs (change_mode (example_title s) "AGENS")
                               (lexicalized_plang s)) ;;
  agens <- gets example_title ;;
  modifier <-
    (if (examples =? 0)%Z then ret (Some (gen_art "quantkein"))
     else
       plang <- gets lexicalized_plang ;;
       match plang with
       | Some modifier =>
           let preposition := gen_prep "in" "zusammenhang" in
           let '(modifier, _) := insert_subdiamond modifier 1 preposition None in
           let modifier := change_mode modifier "ATTRIB" in
           modify (fun s => ExampleArgs (example_title s) (Some modifier)) ;;
           ret (Some modifier)
       | None => ret None
       end) ;;
  plur <- lift (gen_num (PyStr "plur")) ;;
  let patiens :=
    match modifier with
    | Some modifier =>
        create_diamond "PATIENS" "abstraktum" "Code-Beispiel" [plur; modifier]
    | None => create_diamond "PATIENS" "abstraktum" "Code-Beispiel" [plur]
    end in
  ret (create_diamond "" "durativ" lexeme [temp; agens; patiens]).

(** The state is the object passed as [lexicalized_title]. *)
Definition lexicalize_exercises (exercises : int_or_str) (lexeme : string)
    : M Diamond Diamond :=
  lift (assert (str_in lexeme ["beinhalten"; "enthalten"]) "") ;;
  exercises <- lift (int exercises) ;;
  let tempus := gen_tempus "präs" in
  modify (fun title => change_mode title "AGENS") ;;
  agens <- gets (fun s => s) ;;
  plur <- lift (gen_num (PyStr "plur")) ;;
  let patiens :=
    if (exercises =? 1)%Z then
      create_diamond "PATIENS" "abstraktum" "Übung" [plur]
    else
      let modifier := gen_art "quantkein" in
      create_diamond "PATIENS" "abstraktum" "Übung" [plur; modifier] in
  ret (create_diamond "" "durativ" lexeme [tempus; agens; patiens]).

(** ** Shapes the properties are stated with *)

(** A coordination node over two trees; both the comma and the conjunction
    variant have the category "konjunktion". *)
Definition coordinate (anchor mode : string) (left right : Diamond) : Diamond :=
  create_diamond mode "konjunktion" anchor [left; right].

(** Left-heavy grouping: ((first, x1), x2), ... *)
Definition left_chain (anchor mode : string) (first : Diamond)
    (rest : list Diamond) : Diamond :=
  fold_left (coordinate anchor mode) rest first.

(** The leaves of a tree, from left to right. *)
Fixpoint leaves (d : Diamond) : list Diamond :=
  match d with
  | Dia _ _ _ [] => [d]
  | Dia _ _ _ cs => flat_map (fun kc => leaves (snd kc)) cs
  end.

Definition is_leaf (d : Diamond) : Prop := d_subs d = [].

(** The coordinated items of a tree: a coordination node stands for the
    items of its children, any other node for itself. *)
Fixpoint coordinated (d : Diamond) : list Diamond :=
  match d with
  | Dia _ nom _ cs =>
      if (nom =? "konjunktion")%string
      then flat_map (fun kc => coordinated (snd kc)) cs
      else [d]
  end.

Definition flatten {A} (f : Diamond -> list A) (x : pyobj) : list A :=
  match x with
  | EmptyList => []
  | Node d => f d
  end.

(** Nesting depth: a node without children has depth 1. *)
Fixpoint depth (d : Diamond) : nat :=
  match d with
  | Dia _ _ _ cs => S (fold_right (fun kc acc => Nat.max (depth (snd kc)) acc) 0 cs)
  end.

(** The lexical anchors along the first children, outermost first. *)
Fixpoint anchors (d : Diamond) : list string :=
  match d with
  | Dia _ _ p cs =>
      p :: match cs with
           | (_, c) :: _ => anchors c
           | [] => []
           end
  end.

(** The nesting the spec describes for given names: each further name
    wraps what the names before it gave. *)
Definition wrap_given_name (inner : pyobj) (name : string) : pyobj :=
  match inner with
  | EmptyList => Node (create_diamond "N1" "vorname" name [])
  | Node d => Node (create_diamond "N1" "vorname" name [d])
  end.

Definition nest_given_names (names : list string) : pyobj :=
  fold_left wrap_given_name names EmptyList.

(** Whether a patient phrase carries the negative quantifier: a child of
    mode "ART" with the anchor "quantkein", as [gen_art("quantkein")]
    builds it. *)
Definition is_quantkein (d : Diamond) : bool :=
  (d_mode d =? "ART")%string && (d_prop d =? "quantkein")%string.

Definition has_quantkein (patiens : Diamond) : bool :=
  existsb is_quantkein (children patiens).

(** The patient phrase of a clause. *)
Definition patiens_of (clause : Diamond) : option Diamond :=
  lookup "02__PATIENS" (d_subs clause).

(** The clause of a sentence tree: the auxiliary node when the verb has a
    separable prefix, the tree itself otherwise. *)
Definition clause_of (tree : Diamond) : Diamond :=
  match lookup "00__AUX" (d_subs tree) with
  | Some aux => aux
  | None => tree
  end.

(** The agent of a sentence tree. *)
Definition agens_of (tree : Diamond) : option Diamond :=
  lookup "01__AGENS" (d_subs (clause_of tree)).

(** The keys of a node that the pattern "\\d+__ART" matches: its article
    children. *)
Definition article_keys (d : Diamond) : list string :=
  filter (fun key => is_some (match_digits_then "__ART" key)) (keys d).

(** ** Further functions of lexicalization.py *)

(** [d[key]] on a dictionary with string keys *)
Fixpoint dict_get (d : list (string * string)) (key : string) : res string :=
  match d with
  | [] => Raise (KeyError key)
  | (k, v) :: d' => if (k =? key)%string then Ok v else dict_get d' key
  end.

(** [d[key]] on a dictionary with integer keys *)
Fixpoint dict_get_int (d : list (Z * string)) (key : Z) : res string :=
  match d with
  | [] => Raise (KeyError (str_int key))
  | (k, v) :: d' => if (k =? key)%Z then Ok v else dict_get_int d' key
  end.

(** [s.lower()] on a byte string: the letters A to Z are mapped, every
    other byte is kept. *)
Definition lower_char (c : ascii) : ascii :=
  let n := nat_of_ascii c in
  if Nat.leb 65 n && Nat.leb n 90 then ascii_of_nat (n + 32) else c.

Fixpoint lower (s : string) : string :=
  match s with
  | EmptyString => EmptyString
  | String c s' => String (lower_char c) (lower s')
  end.

Definition gen_pers (person : Z) : Diamond :=
  create_diamond "PERS" "" (str_int person ++ "te") [].

(** The state is the object passed as [lexicalized_title]. *)
Definition lexicalize_language (language realize : string)
    : M Diamond Diamond :=
  lift (assert (str_in realize ["noun"; "adjective"]) "") ;;
  let languages := [("German", "Deutsch"); ("English", "Englisch")] in
  let tempus := gen_tempus "präs" in
  modify (fun subj => change_mode subj "SUBJ") ;;
  subj <- gets (fun s => s) ;;
  lang_num <- lift (gen_num (PyStr "sing")) ;;
  prkompl <-
    (if (realize =? "noun")%string then
       let noun_prep := gen_prep "auf" "zusammenhang" in
       language_str <- lift (dict_get languages language) ;;
       ret (create_diamond "PRKOMPL" "abstraktum" language_str
              [lang_num; noun_prep])
     else if (realize =? "adjective")%string then
       let adjective_prep := gen_prep "in" "zusammenhang" in
       language_str <- lift (dict_get languages language) ;;
       let language_str := lower language_str in
       let language_mod := gen_mod language_str "eigenschaft" in
       pos <- lift (gen_komp "pos") ;;
       let '(language_mod, _) := append_subdiamond language_mod pos None in
       ret (create_diamond "PRKOMPL" "sorte" "Sprache"
              [lang_num; adjective_prep; language_mod])
     else lift (Raise UnboundLocalError)) ;;
  ret (create_diamond "" "prädikation" "sein-kop" [tempus; subj; prkompl]).

(** The state is the object passed as [lexicalized_title]. *)
Definition lexicalize_target (target : int_or_str) : M Diamond Diamond :=
  target <- lift (int target) ;;
  let targets := [(0, "Anfänger"); (1, "Einsteiger");
                  (2, "Fortgeschritten"); (3, "Experte")]%Z in
  let tempus := gen_tempus "präs" in
  modify (fun agens => change_mode agens "AGENS") ;;
  agens <- gets (fun s => s) ;;
  reflexive_pronoun <- lift (gen_pronoun 3 "reflpro" "neut" "sing" "PRO") ;;
  target_num <- lift (gen_num (PyStr "plur")) ;;
  let target_prep := gen_prep "an" "gerichtetebez" in
  anchor <- lift (dict_get_int targets target) ;;
  let patiens := create_diamond "PATIENS" "experte" anchor
                   [target_num; target_prep] in
  patiens <-
    (if (target =? 1)%Z then
       attrib_num <- lift (gen_num (PyStr "plur")) ;;
       let attrib_prep := gen_prep "mit" "zugehörigkeit" in
       let attrib := create_diamond "ATTRIB" "abstraktum" "Grundkenntnis"
                       [attrib_num; attrib_prep] in
       let '(patiens, _) := append_subdiamond patiens attrib None in
       ret patiens
     else ret patiens) ;;
  ret (create_diamond "" "handlung" "s.richten_an"
         [tempus; agens; reflexive_pronoun; patiens]).

(** The state is the object passed as [lexicalized_title];
    [agens[Feature("mode")] = "AGENS"] sets the mode as [change_mode]
    does. *)
Definition lexicalize_year (year : int_or_str) : M Diamond Diamond :=
  let tempus := gen_tempus "imperf" in
  let year_str := match year with
                  | PyInt z => str_int z
                  | PyStr s => s
                  end in
  let adv := create_diamond "ADV" "modus" year_str [] in
  modify (fun agens => change_mode agens "AGENS") ;;
  agens <- gets (fun s => s) ;;
  let aux := create_diamond "AUX" "sein" "sein" [tempus; adv; agens] in
  ret (create_diamond "" "inchoativ" "erscheinen" [aux]).

(** ** lexicalize_messageblocks.py *)

(** The dictionary is kept as the list of its entries in the order of the
    assignments; the three keys are distinct. *)
Definition lexicalize_authors_variations (authors : list string)
    : res (list (string * Diamond)) :=
  mapM (fun variation =>
          d <- lexicalize_authors authors variation ;;
          ret (variation, d))
       ["abstract"; "complete"; "lastnames"].

(** The objects passed to [fake_lastbook_nomatch]. *)
Record contrast_args : Type := ContrastArgs {
  lexicalized_lastbook_message : Diamond;
  lexicalized_message : Diamond
}.

Definition fake_lastbook_nomatch : M contrast_args Diamond :=
  modify (fun s => ContrastArgs (lexicalized_lastbook_message s)
                                (change_mode (lexicalized_message s) "HS")) ;;
  hs <- gets lexicalized_message ;;
  modify (fun s => ContrastArgs (change_mode (lexicalized_lastbook_message s) "VL")
                                (lexicalized_message s)) ;;
  vl <- gets lexicalized_lastbook_message ;;
  let ns := create_diamond "NS" "adversativ" "wohingegen" [vl] in
  ret (create_diamond "" "subjunktion" "komma" [hs; ns]).

(** ** Further shapes the properties are stated with *)

(** Two trees that differ in their mode at most. *)
Definition same_but_mode (d d' : Diamond) : Prop :=
  d_nom d' = d_nom d /\ d_prop d' = d_prop d /\ d_subs d' = d_subs d.

(** The coordination nodes with a given anchor in an enumeration; a node
    that is no coordination counts as an item. *)
Fixpoint count_coordinations (anchor : string) (d : Diamond) : nat :=
  match d with
  | Dia _ nom prop cs =>
      if (nom =? "konjunktion")%string
      then (if (prop =? anchor)%string then 1 else 0)
           + fold_right (fun kc acc => count_coordinations anchor (snd kc) + acc) 0 cs
      else 0
  end.

Fixpoint has_space (s : string) : bool :=
  match s with
  | EmptyString => false
  | String c s' => is_space c || has_space s'
  end.

Fixpoint has_blank (s : string) : bool :=
  match s with
  | EmptyString => false
  | String c s' => Ascii.eqb c " "%char || has_blank s'
  end.

(** [d[key]] on the dictionary of [lexicalize_authors_variations] *)
Definition variation (d : list (string * Diamond)) (key : string) : option Diamond :=
  lookup key d.

(** A string of whitespace only, the empty string included. *)
Fixpoint only_space (s : string) : bool :=
  match s with
  | EmptyString => true
  | String c s' => is_space c && only_space s'
  end.

(** A name [name.split()] finds a token in. *)
Definition has_token (name : string) : Prop := split name <> [].

(** * Properties *)

Open Scope list_scope.

(** ** Lists seen from their last element *)

Lemma index_last_snoc {A} (l : list A) (x : A) : index_last (l ++ [x]) = Ok x.
Proof.
  induction l as [|a l IH]; [reflexivity|].
  simpl. destruct (l ++ [x]) eqn:E; [destruct l; discriminate|exact IH].
Qed.

Lemma but_last_snoc {A} (l : list A) (x : A) : but_last (l ++ [x]) = l.
Proof. apply removelast_last. Qed.

Lemma snoc_cases {A} (l : list A) : l = [] \/ exists front final, l = front ++ [final].
Proof.
  destruct l as [|a l]; [now left|right].
  destruct (@exists_last _ (a :: l)) as [front [final E]]; [discriminate|].
  now exists front, final.
Qed.

(** ** Enumeration nesting *)

Lemma left_chain_snoc anchor mode first rest x :
  left_chain anchor mode first (rest ++ [x])
  = coordinate anchor mode (left_chain anchor mode first rest) x.
Proof. unfold left_chain. now rewrite fold_left_app. Qed.

(** One step of [gen_komma_enumeration] on a list of three or more. *)
Lemma gen_komma_enumeration_step l x mode :
  2 <= length l ->
  gen_komma_enumeration (l ++ [x]) mode
  = (nested_komma_enum <- gen_komma_enumeration l mode ;;
     nested <- as_child nested_komma_enum ;;
     ret (Node (coordinate "komma" mode nested x))).
Proof.
  intros Hl.
  destruct l as [|d1 [|d2 l']]; simpl in Hl; try lia.
  assert (E : exists d3 ds, l' ++ [x] = d3 :: ds).
  { destruct l'; simpl; eauto. }
  destruct E as [d3 [ds E]].
  change ((d1 :: d2 :: l') ++ [x]) with (d1 :: d2 :: (l' ++ [x])).
  rewrite E. simp gen_komma_enumeration. rewrite <- E.
  change (d1 :: d2 :: (l' ++ [x])) with ((d1 :: d2 :: l') ++ [x]).
  rewrite but_last_snoc, index_last_snoc.
  destruct (gen_komma_enumeration (d1 :: d2 :: l') mode) as [[|d]|e]; reflexivity.
Qed.

(** The comma enumeration of a non-empty list is the left-heavy chain. *)
Lemma gen_komma_enumeration_chain first rest mode :
  gen_komma_enumeration (first :: rest) mode
  = Ok (Node (left_chain "komma" mode first rest)).
Proof.
  induction rest as [|x rest IH] using rev_ind.
  - now simp gen_komma_enumeration.
  - destruct rest as [|b rest'].
    + now simp gen_komma_enumeration.
    + change (first :: (b :: rest') ++ [x]) with ((first :: b :: rest') ++ [x]).
      rewrite gen_komma_enumeration_step by (simpl; lia).
      rewrite IH, left_chain_snoc. reflexivity.
Qed.

Lemma gen_enumeration_chain a b rest final mode :
  gen_enumeration (a :: b :: rest ++ [final]) mode
  = Ok (Node (coordinate "und" mode (left_chain "komma" mode a (b :: rest)) final)).
Proof.
  assert (E : exists d3 ds, rest ++ [final] = d3 :: ds).
  { destruct rest; simpl; eauto. }
  destruct E as [d3 [ds E]].
  unfold gen_enumeration. rewrite E, <- E.
  change (a :: b :: rest ++ [final]) with ((a :: b :: rest) ++ [final]).
  rewrite but_last_snoc, index_last_snoc, gen_komma_enumeration_chain.
  reflexivity.
Qed.

(** Every list of more than two items ends in a final item after at least
    two others. *)
Lemma long_list_shape {A} (l : list A) :
  2 < length l -> exists a b rest final, l = a :: b :: rest ++ [final].
Proof.
  intros H. destruct l as [|a [|b l']]; simpl in H; try lia.
  destruct (snoc_cases l') as [->|[rest [final ->]]]; [simpl in H; lia|].
  now exists a, b, rest, final.
Qed.

(** C1. [gen_enumeration] is size-correct: no item gives the empty list
    (no error), one item gives that item, two items give one "und"
    coordination of the two in order, and more than two items give an
    "und" coordination whose first child is what [gen_komma_enumeration]
    makes of all items but the last, namely the left-heavy chain of
    "komma" coordinations (same category, same mode), and whose second
    child is the last item. *)
Theorem gen_enumeration_size_correct (mode : string) :
  gen_enumeration [] mode = Ok EmptyList
  /\ (forall d, gen_enumeration [d] mode = Ok (Node d))
  /\ (forall a b,
        gen_enumeration [a; b] mode
        = Ok (Node (create_diamond mode "konjunktion" "und" [a; b])))
  /\ (forall items, 2 < length items ->
        exists a rest final nested,
          items = a :: rest ++ [final]
          /\ gen_komma_enumeration (a :: rest) mode = Ok (Node nested)
          /\ nested = left_chain "komma" mode a rest
          /\ d_nom nested = "konjunktion" /\ d_prop nested = "komma"
          /\ gen_enumeration items mode
             = Ok (Node (create_diamond mode "konjunktion" "und" [nested; final]))).
Proof.
  repeat split; try reflexivity.
  intros items H.
  destruct (long_list_shape items H) as [a [b [rest [final ->]]]].
  exists a, (b :: rest), final, (left_chain "komma" mode a (b :: rest)).
  repeat split.
  - apply gen_komma_enumeration_chain.
  - destruct (snoc_cases rest) as [->|[r [x ->]]]; [reflexivity|].
    rewrite app_comm_cons, left_chain_snoc. reflexivity.
  - destruct (snoc_cases rest) as [->|[r [x ->]]]; [reflexivity|].
    rewrite app_comm_cons, left_chain_snoc. reflexivity.
  - apply gen_enumeration_chain.
Qed.

Lemma gen_enumeration_size_correct_witness :
  exists a rest final nested,
    [gen_art "a"; gen_art "b"; gen_art "c"; gen_art "d"] = a :: rest ++ [final]
    /\ gen_komma_enumeration (a :: rest) "NP" = Ok (Node nested)
    /\ nested = left_chain "komma" "NP" a rest
    /\ d_nom nested = "konjunktion" /\ d_prop nested = "komma"
    /\ gen_enumeration [gen_art "a"; gen_art "b"; gen_art "c"; gen_art "d"] "NP"
       = Ok (Node (create_diamond "NP" "konjunktion" "und" [nested; final])).
Proof.
  apply (proj2 (proj2 (proj2 (gen_enumeration_size_correct "NP")))).
  simpl. lia.
Defined.

(** [gen_enumeration] returns for every list, and a tree for every
    non-empty one. *)
Lemma gen_enumeration_total items mode :
  match items with
  | [] => gen_enumeration items mode = Ok EmptyList
  | [d] => gen_enumeration items mode = Ok (Node d)
  | a :: rest =>
      exists nested final,
        gen_enumeration items mode = Ok (Node (coordinate "und" mode nested final))
        /\ d_mode nested = d_mode (left_chain "komma" mode a (removelast rest))
  end.
Proof.
  destruct items as [|a [|b rest]]; try reflexivity.
  destruct (snoc_cases rest) as [->|[r [x ->]]].
  - exists a, b. split; reflexivity.
  - exists (left_chain "komma" mode a (b :: r)), x. split.
    + apply gen_enumeration_chain.
    + now rewrite app_comm_cons, removelast_last.
Qed.

(** ** Flattening an enumeration *)

Lemma leaves_coordinate anchor mode l r :
  leaves (coordinate anchor mode l r) = leaves l ++ leaves r.
Proof. simpl. now rewrite app_nil_r. Qed.

Lemma leaves_left_chain anchor mode rest : forall first,
  leaves (left_chain anchor mode first rest) = flat_map leaves (first :: rest).
Proof.
  induction rest as [|x rest IH]; intros first.
  - simpl. now rewrite app_nil_r.
  - change (left_chain anchor mode first (x :: rest))
      with (left_chain anchor mode (coordinate anchor mode first x) rest).
    rewrite IH. cbn [flat_map].
    now rewrite leaves_coordinate, app_assoc.
Qed.

Lemma leaves_of_leaf d : is_leaf d -> leaves d = [d].
Proof. destruct d as [m n p cs]. unfold is_leaf. simpl. now intros ->. Qed.

Lemma flat_map_leaves_of_leaves items :
  Forall is_leaf items -> flat_map leaves items = items.
Proof.
  induction 1 as [|d l Hd _ IH]; [reflexivity|].
  simpl. now rewrite leaves_of_leaf, IH.
Qed.

Lemma coordinated_coordinate anchor mode l r :
  coordinated (coordinate anchor mode l r) = coordinated l ++ coordinated r.
Proof. simpl. now rewrite app_nil_r. Qed.

Lemma coordinated_left_chain anchor mode rest : forall first,
  coordinated (left_chain anchor mode first rest)
  = flat_map coordinated (first :: rest).
Proof.
  induction rest as [|x rest IH]; intros first.
  - simpl. now rewrite app_nil_r.
  - change (left_chain anchor mode first (x :: rest))
      with (left_chain anchor mode (coordinate anchor mode first x) rest).
    rewrite IH. cbn [flat_map].
    now rewrite coordinated_coordinate, app_assoc.
Qed.

Lemma coordinated_item d : d_nom d <> "konjunktion" -> coordinated d = [d].
Proof.
  destruct d as [m n p cs]. simpl. intros H.
  destruct (String.eqb_spec n "konjunktion"); [contradiction|reflexivity].
Qed.

Lemma flat_map_coordinated_items items :
  Forall (fun d => d_nom d <> "konjunktion") items ->
  flat_map coordinated items = items.
Proof.
  induction 1 as [|d l Hd _ IH]; [reflexivity|].
  simpl. now rewrite coordinated_item, IH.
Qed.

(** C6. For every list of item trees [gen_enumeration] returns a value
    whose leaves, read from left to right, are the leaves of the items in
    the order of the input; when the items are leaves themselves, these are
    exactly the items. Read as a coordination, the value gives back the
    items themselves in their order whenever no item is a coordination
    node of its own. *)
Theorem gen_enumeration_flatten (items : list Diamond) (mode : string) :
  exists v,
    gen_enumeration items mode = Ok v
    /\ flatten leaves v = flat_map leaves items
    /\ (Forall is_leaf items -> flatten leaves v = items)
    /\ (Forall (fun d => d_nom d <> "konjunktion") items ->
        flatten coordinated v = items).
Proof.
  assert (E : exists v, gen_enumeration items mode = Ok v
                        /\ flatten leaves v = flat_map leaves items
                        /\ flatten coordinated v = flat_map coordinated items).
  { destruct items as [|a [|b rest]].
    - exists EmptyList. now repeat split.
    - exists (Node a). simpl. now rewrite !app_nil_r.
    - destruct (snoc_cases rest) as [->|[r [x ->]]].
      + exists (Node (coordinate "und" mode a b)). split; [reflexivity|].
        split; simpl; now rewrite !app_nil_r.
      + eexists. split; [apply gen_enumeration_chain|].
        unfold flatten.
        rewrite leaves_coordinate, leaves_left_chain.
        rewrite coordinated_coordinate, coordinated_left_chain.
        rewrite !app_comm_cons, !flat_map_app. simpl.
        now rewrite !app_nil_r. }
  destruct E as [v [Hv [Hl Hc]]]. exists v. repeat split; trivial.
  - intros H. now rewrite Hl, flat_map_leaves_of_leaves.
  - intros H. now rewrite Hc, flat_map_coordinated_items.
Qed.

Lemma gen_enumeration_flatten_witness :
  exists v,
    gen_enumeration [gen_art "a"; gen_art "b"; gen_art "c"; gen_art "d"] "N" = Ok v
    /\ flatten leaves v = [gen_art "a"; gen_art "b"; gen_art "c"; gen_art "d"]
    /\ flatten coordinated v = [gen_art "a"; gen_art "b"; gen_art "c"; gen_art "d"].
Proof.
  destruct (gen_enumeration_flatten
              [gen_art "a"; gen_art "b"; gen_art "c"; gen_art "d"] "N")
    as [v [Hv [_ [Hl Hc]]]].
  exists v. split; [exact Hv|]. split.
  - apply Hl. repeat constructor.
  - apply Hc. repeat constructor; discriminate.
Defined.

(** ** Nested given names *)

Lemma gen_nested_given_names_step names name :
  gen_nested_given_names (names ++ [name])
  = (nested_diamond <- gen_nested_given_names names ;;
     ret (wrap_given_name nested_diamond name)).
Proof.
  assert (E : exists n ns, names ++ [name] = n :: ns).
  { destruct names; simpl; eauto. }
  destruct E as [n [ns E]].
  rewrite E. simp gen_nested_given_names. rewrite <- E.
  rewrite but_last_snoc, index_last_snoc. simpl.
  destruct (gen_nested_given_names names) as [[|d]|e]; reflexivity.
Qed.

(** [gen_nested_given_names] returns for every list: the names are wrapped
    one around the other, the first one innermost. *)
Lemma gen_nested_given_names_nest names :
  gen_nested_given_names names = Ok (nest_given_names names).
Proof.
  induction names as [|name names IH] using rev_ind.
  - now simp gen_nested_given_names.
  - rewrite gen_nested_given_names_step, IH.
    unfold nest_given_names. now rewrite fold_left_app.
Qed.

Lemma nest_given_names_shape names :
  match nest_given_names names with
  | EmptyList => names = []
  | Node d => depth d = length names /\ anchors d = rev names
  end.
Proof.
  induction names as [|name names IH] using rev_ind; [reflexivity|].
  unfold nest_given_names in *. rewrite fold_left_app. simpl.
  rewrite length_app, rev_app_distr. simpl.
  destruct (fold_left wrap_given_name names EmptyList) as [|d]; simpl.
  - subst. now split.
  - destruct IH as [Hd Ha]. rewrite Hd, Ha, Nat.max_0_r. split; [lia|reflexivity].
Qed.

(** C7. For the empty list [gen_nested_given_names] returns the empty list;
    for a non-empty list of given names it returns a tree whose nesting
    depth is the number of names and whose outermost anchor is the last
    name; going inwards the anchors are the names in reverse order, so the
    first name is innermost. *)
Theorem gen_nested_given_names_depth :
  gen_nested_given_names [] = Ok EmptyList
  /\ forall names last_name,
       exists d,
         gen_nested_given_names (names ++ [last_name]) = Ok (Node d)
         /\ depth d = length (names ++ [last_name])
         /\ d_prop d = last_name
         /\ anchors d = rev (names ++ [last_name]).
Proof.
  split; [now simp gen_nested_given_names|].
  intros names last_name.
  rewrite gen_nested_given_names_nest.
  pose proof (nest_given_names_shape (names ++ [last_name])) as H.
  destruct (nest_given_names (names ++ [last_name])) as [|d].
  - destruct names; discriminate.
  - exists d. destruct H as [Hd Ha]. repeat split; trivial.
    rewrite rev_app_distr in Ha. simpl in Ha.
    destruct d as [m n p cs]. simpl in *. congruence.
Qed.

(** ** Atomic generators *)

Lemma gen_num_int (n : Z) :
  gen_num (PyInt n)
  = if (n >? 0)%Z
    then Ok (create_diamond "NUM" "" (if (n =? 1)%Z then "sing" else "plur") [])
    else Raise (AssertionError "count has to be >= 1").
Proof.
  unfold gen_num. cbn.
  destruct (Z.gtb_spec n 0) as [H|H]; [cbn|reflexivity].
  destruct (Z.eqb_spec n 1); [reflexivity|].
  destruct (Z.gtb_spec n 1); [reflexivity|lia].
Qed.

Lemma gen_num_len {A} (l : list A) :
  l <> [] ->
  gen_num (PyInt (len l))
  = Ok (create_diamond "NUM" "" (if (len l =? 1)%Z then "sing" else "plur") []).
Proof.
  intros H. rewrite gen_num_int.
  destruct (Z.gtb_spec (len l) 0) as [_|H0]; [reflexivity|].
  destruct l; [contradiction|unfold len in H0; simpl in H0; lia].
Qed.

(** C3, as the code has it. [gen_num] maps the count 1 to the singular
    leaf and every count above 1 to the plural leaf; a count of 0 or below
    is rejected by the assertion "count has to be >= 1". *)
Theorem gen_num_of_int (n : Z) :
  gen_num (PyInt n)
  = if (n <=? 0)%Z then Raise (AssertionError "count has to be >= 1")
    else if (n =? 1)%Z then Ok (create_diamond "NUM" "" "sing" [])
    else Ok (create_diamond "NUM" "" "plur" []).
Proof.
  rewrite gen_num_int.
  destruct (Z.leb_spec n 0), (Z.gtb_spec n 0); try lia; [reflexivity|].
  destruct (n =? 1)%Z; reflexivity.
Qed.

(** C3, as stated, fails: the count 0 is at most 1, and [gen_num] gives no
    singular leaf for it but raises. *)
Lemma gen_num_zero_rejected :
  ~ (forall n : Z, (n <= 1)%Z ->
       gen_num (PyInt n) = Ok (create_diamond "NUM" "" "sing" [])).
Proof. intros H. specialize (H 0%Z ltac:(lia)). discriminate H. Qed.

(** C10. [gen_personal_pronoun] sets the gender to "fem" whenever the
    count is above 1 or the gender is the empty string, whatever gender was
    asked for: the tree it returns holds, under the key "02__GEN", the leaf
    of mode "GEN" anchored "fem". So [lexicalize_titles] in "pronoun" mode
    builds, for two or more books, a plural pronoun (the leaf of mode "NUM"
    anchored "plur") with that gender leaf "fem", although it asks for
    "neut". The trees are spelled out node by node. *)
Theorem gen_personal_pronoun_fem :
  (forall count gender person mode,
     (count > 1)%Z \/ gender = "" ->
     (person = 1 \/ person = 2 \/ person = 3)%Z ->
     gen_personal_pronoun count gender person mode
     = Ok (Dia mode "sem-obj" ""
             [("00__PERS", Dia "PERS" "" (str_int person ++ "te")%string []);
              ("01__PRO", Dia "PRO" "" "perspro" []);
              ("02__GEN", Dia "GEN" "" "fem" []);
              ("03__NUM",
               Dia "NUM" "" (if (count =? 1)%Z then "sing" else "plur") [])]))
  /\ (forall book_titles rnd1 rnd2,
        2 <= length book_titles ->
        lexicalize_titles book_titles "pronoun" None rnd1 rnd2 None
        = (Ok (Dia "" "sem-obj" ""
                 [("00__PERS", Dia "PERS" "" "3te" []);
                  ("01__PRO", Dia "PRO" "" "perspro" []);
                  ("02__GEN", Dia "GEN" "" "fem" []);
                  ("03__NUM", Dia "NUM" "" "plur" [])]), None)
        /\ exists d gen num,
             fst (lexicalize_titles book_titles "pronoun" None rnd1 rnd2 None) = Ok d
             /\ lookup "02__GEN" (d_subs d) = Some gen
             /\ d_mode gen = "GEN" /\ d_prop gen = "fem"
             /\ lookup "03__NUM" (d_subs d) = Some num
             /\ d_mode num = "NUM" /\ d_prop num = "plur").
Proof.
  assert (P : forall count gender person mode,
     (count > 1)%Z \/ gender = "" ->
     (person = 1 \/ person = 2 \/ person = 3)%Z ->
     gen_personal_pronoun count gender person mode
     = Ok (Dia mode "sem-obj" ""
             [("00__PERS", Dia "PERS" "" (str_int person ++ "te")%string []);
              ("01__PRO", Dia "PRO" "" "perspro" []);
              ("02__GEN", Dia "GEN" "" "fem" []);
              ("03__NUM",
               Dia "NUM" "" (if (count =? 1)%Z then "sing" else "plur") [])])).
  { intros count gender person mode Hc Hp.
    unfold gen_personal_pronoun.
    assert (G : (if ((count >? 1)%Z || (gender =? "")%string)%bool
                 then "fem" else gender) = "fem").
    { destruct Hc as [Hc| ->].
      - destruct (Z.gtb_spec count 1); [reflexivity|lia].
      - now rewrite orb_true_r. }
    rewrite G.
    destruct Hp as [->|[->| ->]]; destruct (count =? 1)%Z; reflexivity. }
  split; [exact P|].
  intros book_titles rnd1 rnd2 H.
  assert (E : lexicalize_titles book_titles "pronoun" None rnd1 rnd2 None
              = (Ok (Dia "" "sem-obj" ""
                       [("00__PERS", Dia "PERS" "" "3te" []);
                        ("01__PRO", Dia "PRO" "" "perspro" []);
                        ("02__GEN", Dia "GEN" "" "fem" []);
                        ("03__NUM", Dia "NUM" "" "plur" [])]), None)).
  { unfold lexicalize_titles. cbn -[gen_personal_pronoun].
    rewrite (P (len book_titles) "neut" 3%Z "") by (unfold len; lia).
    destruct (Z.eqb_spec (len book_titles) 1) as [E|E]; [unfold len in E; lia|].
    reflexivity. }
  split; [exact E|].
  rewrite E. eexists. eexists. eexists.
  split; [reflexivity|]. split; [reflexivity|]. split; [reflexivity|].
  split; [reflexivity|]. split; [reflexivity|]. split; reflexivity.
Qed.

Lemma gen_personal_pronoun_fem_witness :
  gen_personal_pronoun 2 "neut" 3 ""
  = Ok (Dia "" "sem-obj" ""
          [("00__PERS", Dia "PERS" "" "3te" []);
           ("01__PRO", Dia "PRO" "" "perspro" []);
           ("02__GEN", Dia "GEN" "" "fem" []);
           ("03__NUM", Dia "NUM" "" "plur" [])])
  /\ lexicalize_titles ["a book"; "another book"] "pronoun" None 0 0 None
     = (Ok (Dia "" "sem-obj" ""
              [("00__PERS", Dia "PERS" "" "3te" []);
               ("01__PRO", Dia "PRO" "" "perspro" []);
               ("02__GEN", Dia "GEN" "" "fem" []);
               ("03__NUM", Dia "NUM" "" "plur" [])]), None).
Proof.
  split.
  - apply (proj1 gen_personal_pronoun_fem 2%Z "neut" 3%Z "").
    + left. lia.
    + right. right. reflexivity.
  - apply (proj2 gen_personal_pronoun_fem ["a book"; "another book"] 0 0).
    simpl. lia.
Defined.

(** ** Zero counts *)

(** [lexicalize_codeexamples] puts the negative quantifier into the patient
    phrase for the count 0 and for no other count. *)
Lemma lexicalize_codeexamples_modifier (n : Z) (lexeme : string)
    (title : Diamond) (plang : option Diamond) :
  str_in lexeme ["beinhalten"; "enthalten"] = true ->
  exists clause patiens,
    fst (lexicalize_codeexamples (PyInt n) lexeme (ExampleArgs title plang)) = Ok clause
    /\ patiens_of clause = Some patiens
    /\ has_quantkein patiens = (n =? 0)%Z.
Proof.
  intros Hl. unfold lexicalize_codeexamples. rewrite Hl. cbn.
  destruct (n =? 0)%Z; cbn.
  - eexists. eexists. repeat split.
  - destruct plang as [p|]; cbn; eexists; eexists; repeat split.
Qed.

(** C2, at the counts the code gets wrong. [lexicalize_exercises] leaves
    the negative quantifier out of the patient phrase for the count 1 only:
    for every other count, 2 and above included, the patient phrase holds
    the "quantkein" article. *)
Theorem lexicalize_exercises_modifier (n : Z) (lexeme : string) (title : Diamond) :
  str_in lexeme ["beinhalten"; "enthalten"] = true ->
  exists clause patiens,
    fst (lexicalize_exercises (PyInt n) lexeme title) = Ok clause
    /\ patiens_of clause = Some patiens
    /\ has_quantkein patiens = negb (n =? 1)%Z.
Proof.
  intros Hl. unfold lexicalize_exercises. rewrite Hl. cbn.
  destruct (n =? 1)%Z; cbn; eexists; eexists; repeat split.
Qed.

Lemma lexicalize_exercises_modifier_witness :
  exists clause patiens,
    fst (lexicalize_exercises (PyInt 2) "beinhalten" (gen_title "foo")) = Ok clause
    /\ patiens_of clause = Some patiens
    /\ has_quantkein patiens = true.
Proof.
  apply (lexicalize_exercises_modifier 2 "beinhalten" (gen_title "foo")).
  reflexivity.
Defined.

(** ** Unsupported lexemes *)

Lemma str_in_false_eqb x y ys :
  str_in x ys = false -> In y ys -> (x =? y)%string = false.
Proof.
  unfold str_in. intros H Hy.
  destruct (x =? y)%string eqn:E; [|reflexivity].
  rewrite <- H. symmetry. apply existsb_exists. now exists y.
Qed.

(** C5, at the lexemes the code lets through. For a lexeme outside
    "umfang", "umfassen", "länge" and "random", [lexicalize_pages] raises
    nothing: it returns [None], and it leaves the title object relabeled to
    the mode "AGENS". *)
Theorem lexicalize_pages_unsupported_lexeme
    (pages : int_or_str) (lexeme : string) (rnd : nat) (title : Diamond) :
  str_in lexeme ["umfang"; "umfassen"; "länge"; "random"] = false ->
  lexicalize_pages pages lexeme rnd title = (Ok None, change_mode title "AGENS").
Proof.
  intros H. unfold lexicalize_pages. cbn -[String.eqb].
  rewrite (str_in_false_eqb _ "random" _ H) by (simpl; tauto).
  rewrite (str_in_false_eqb _ "umfang" _ H) by (simpl; tauto).
  rewrite (str_in_false_eqb _ "umfassen" _ H) by (simpl; tauto).
  rewrite (str_in_false_eqb _ "länge" _ H) by (simpl; tauto).
  reflexivity.
Qed.

Lemma lexicalize_pages_unsupported_lexeme_witness :
  lexicalize_pages (PyInt 600) "seitenzahl" 0 (gen_title "foo")
  = (Ok None, change_mode (gen_title "foo") "AGENS").
Proof.
  apply (lexicalize_pages_unsupported_lexeme (PyInt 600) "seitenzahl" 0 (gen_title "foo")).
  reflexivity.
Defined.

(** ** Who is the agent *)

Lemma mapM_ok {A B} (f : A -> res B) (g : A -> B) (l : list A) :
  (forall x, f x = Ok (g x)) -> mapM f l = Ok (map g l).
Proof.
  intros H. induction l as [|x l IH]; [reflexivity|].
  simpl. now rewrite H, IH.
Qed.

Lemma gen_enumeration_node items mode :
  items <> [] -> exists d, gen_enumeration items mode = Ok (Node d).
Proof.
  intros H. pose proof (gen_enumeration_total items mode) as T.
  destruct items as [|a [|b rest]]; [contradiction|eauto|].
  destruct T as [nested [final [T _]]]. eauto.
Qed.

Lemma gen_keywords_ok kws mode :
  kws <> [] -> exists d, gen_keywords kws mode = Ok d.
Proof.
  intros H. unfold gen_keywords, gen_abstract_keywords.
  rewrite (gen_num_len kws H). cbn -[gen_enumeration mapM].
  destruct kws as [|k [|k' kws']]; [contradiction| |].
  - cbn. eauto.
  - rewrite (mapM_ok _ (fun kw => create_diamond mode "sorte" (replace_space kw)
                                    [create_diamond "NUM" "" "sing" []]))
      by reflexivity.
    cbn -[gen_enumeration map].
    destruct (gen_enumeration_node
                (map (fun kw => create_diamond mode "sorte" (replace_space kw)
                                  [create_diamond "NUM" "" "sing" []])
                     (k :: k' :: kws')) mode) as [d Hd]; [discriminate|].
    rewrite Hd. cbn. eauto.
Qed.

Lemma gen_plang_ok plang mode :
  sql_array_to_list plang <> [] -> exists d, gen_plang plang mode = Ok d.
Proof.
  intros H. unfold gen_plang.
  destruct (String.eqb_spec plang "") as [->|_]; [now contradiction H|].
  cbn -[gen_enumeration mapM sql_array_to_list gen_num].
  rewrite (gen_num_len _ H). cbn -[gen_enumeration mapM sql_array_to_list].
  rewrite (mapM_ok _ (fun proglang => create_diamond "N" "sorte" proglang
                                        [create_diamond "NUM" "" "sing" []]))
    by reflexivity.
  cbn -[gen_enumeration map sql_array_to_list].
  destruct (gen_enumeration_node
              (map (fun proglang => create_diamond "N" "sorte" proglang
                                      [create_diamond "NUM" "" "sing" []])
                   (sql_array_to_list plang)) "N") as [d Hd].
  { destruct (sql_array_to_list plang); [contradiction|discriminate]. }
  rewrite Hd. cbn. eauto.
Qed.

(** The patient phrase [lexicalize_keywords] builds before it looks at the
    agent. *)
Lemma keywords_patiens_ok kws realize :
  kws <> [] -> str_in realize ["abstract"; "complete"] = true ->
  exists p,
    (if (realize =? "abstract")%string then gen_abstract_keywords (len kws)
     else if (realize =? "complete")%string then gen_keywords kws "N"
     else Raise UnboundLocalError) = Ok p.
Proof.
  intros H Hr.
  destruct (realize =? "abstract")%string eqn:E1.
  - unfold gen_abstract_keywords. rewrite (gen_num_len kws H). cbn. eauto.
  - destruct (realize =? "complete")%string eqn:E2.
    + now apply gen_keywords_ok.
    + unfold str_in in Hr. simpl in Hr. rewrite E1, E2 in Hr. discriminate.
Qed.

Ltac keywords_run :=
  unfold lexicalize_keywords;
  match goal with
  | |- context [assert (str_in ?r ["abstract"; "complete"]) _] =>
      destruct (str_in r ["abstract"; "complete"]) eqn:?Hr
  end;
  cbn -[gen_abstract_keywords gen_keywords str_in String.eqb];
  try match goal with
  | |- context [if (?r =? "abstract")%string then ?x else ?y] =>
      destruct (if (r =? "abstract")%string then x else y) as [?p|?e] eqn:?Hp
  end;
  cbn -[str_in String.eqb].

Ltac lexeme_cases lexeme :=
  destruct (str_in lexeme ["behandeln"; "beschreiben"]);
  [|destruct (lexeme =? "eingehen")%string;
    [|destruct (lexeme =? "aufgreifen")%string]].

Lemma lexicalize_keywords_title_first kws realize lexeme t a :
  let out := lexicalize_keywords kws realize lexeme (AgentArgs (Some t) (Some a)) in
  lexicalized_authors (snd out) = Some a
  /\ fst out = fst (lexicalize_keywords kws realize lexeme (AgentArgs (Some t) None))
  /\ (forall tree, fst out = Ok (Some tree) ->
        agens_of tree = Some (change_mode t "AGENS")
        /\ lexicalized_title (snd out) = Some (change_mode t "AGENS")).
Proof.
  cbv zeta. repeat split.
  - keywords_run; try reflexivity. lexeme_cases lexeme; reflexivity.
  - keywords_run; try reflexivity. lexeme_cases lexeme; reflexivity.
  - revert H. keywords_run; try discriminate.
    lexeme_cases lexeme; cbn; intros [= <-]; reflexivity.
  - revert H. keywords_run; try discriminate.
    lexeme_cases lexeme; cbn; intros [= <-]; reflexivity.
Qed.

Lemma lexicalize_plang_title_first plang t a :
  let out := lexicalize_plang plang "complete" (AgentArgs (Some t) (Some a)) in
  lexicalized_authors (snd out) = Some a
  /\ fst out = fst (lexicalize_plang plang "complete" (AgentArgs (Some t) None))
  /\ lexicalized_title (snd out) = Some (change_mode t "AGENS")
  /\ (forall tree, fst out = Ok (Some tree) ->
        agens_of tree = Some (change_mode t "AGENS")).
Proof.
  cbv zeta. unfold lexicalize_plang. cbn -[gen_plang].
  destruct (gen_plang plang "PATIENS") as [p|e]; cbn; repeat split.
  - intros tree [= <-]. reflexivity.
  - discriminate.
Qed.

(** C9. When a title and authors are both passed to [lexicalize_keywords],
    or to [lexicalize_plang] in "complete" mode, the title is the agent:
    the call leaves the authors object as it was, returns what it returns
    when the title is passed alone (the authors are no part of the
    result), and in a returned sentence tree the agent is the title
    relabeled to the mode "AGENS", which is also the title object's final
    value. With at least one keyword (one programming language), a known
    realization and a known lexeme such a tree is returned. *)
Theorem title_takes_precedence (t a : Diamond) :
  (forall kws realize lexeme,
     let out := lexicalize_keywords kws realize lexeme (AgentArgs (Some t) (Some a)) in
     lexicalized_authors (snd out) = Some a
     /\ fst out = fst (lexicalize_keywords kws realize lexeme (AgentArgs (Some t) None))
     /\ (forall tree, fst out = Ok (Some tree) ->
           agens_of tree = Some (change_mode t "AGENS")
           /\ lexicalized_title (snd out) = Some (change_mode t "AGENS"))
     /\ (kws <> [] ->
         str_in realize ["abstract"; "complete"] = true ->
         str_in lexeme ["behandeln"; "beschreiben"; "eingehen"; "aufgreifen"] = true ->
         exists tree, fst out = Ok (Some tree)))
  /\ (forall plang,
        let out := lexicalize_plang plang "complete" (AgentArgs (Some t) (Some a)) in
        lexicalized_authors (snd out) = Some a
        /\ fst out = fst (lexicalize_plang plang "complete" (AgentArgs (Some t) None))
        /\ (forall tree, fst out = Ok (Some tree) ->
              agens_of tree = Some (change_mode t "AGENS")
              /\ lexicalized_title (snd out) = Some (change_mode t "AGENS"))
        /\ (sql_array_to_list plang <> [] -> exists tree, fst out = Ok (Some tree))).
Proof.
  split.
  - intros kws realize lexeme out.
    destruct (lexicalize_keywords_title_first kws realize lexeme t a) as [H1 [H2 H3]].
    split; [exact H1|]. split; [exact H2|]. split; [exact H3|].
    intros Hk Hr Hl. subst out.
    destruct (keywords_patiens_ok kws realize Hk Hr) as [p Hp].
    unfold lexicalize_keywords. rewrite Hr.
    cbn -[gen_abstract_keywords gen_keywords str_in String.eqb].
    rewrite Hp. cbn -[str_in String.eqb].
    unfold str_in in Hl. simpl in Hl.
    unfold str_in. simpl.
    destruct (lexeme =? "behandeln")%string; [cbn; eauto|].
    destruct (lexeme =? "beschreiben")%string; [cbn; eauto|].
    destruct (lexeme =? "eingehen")%string; [cbn; eauto|].
    destruct (lexeme =? "aufgreifen")%string; [cbn; eauto|discriminate].
  - intros plang out.
    destruct (lexicalize_plang_title_first plang t a) as [H1 [H2 [H3 H4]]].
    split; [exact H1|]. split; [exact H2|].
    split; [intros tree E; split; [now apply H4|exact H3]|].
    intros Hp. subst out.
    destruct (gen_plang_ok plang "PATIENS" Hp) as [p Ep].
    unfold lexicalize_plang. cbn -[gen_plang]. rewrite Ep. cbn. eauto.
Qed.

Lemma title_takes_precedence_witness :
  (exists tree,
     fst (lexicalize_keywords ["parsing"; "semantics"] "complete" "eingehen"
            (AgentArgs (Some (gen_title "On Syntax")) (Some (gen_art "def"))))
     = Ok (Some tree)
     /\ agens_of tree = Some (change_mode (gen_title "On Syntax") "AGENS"))
  /\ (exists tree,
        fst (lexicalize_plang "[Ada][Scheme]" "complete"
               (AgentArgs (Some (gen_title "On Syntax")) (Some (gen_art "def"))))
        = Ok (Some tree)
        /\ agens_of tree = Some (change_mode (gen_title "On Syntax") "AGENS")).
Proof.
  destruct (title_takes_precedence (gen_title "On Syntax") (gen_art "def"))
    as [K P].
  split.
  - destruct (K ["parsing"; "semantics"] "complete" "eingehen") as [_ [_ [A E]]].
    destruct E as [tree E]; [discriminate|reflexivity|reflexivity|].
    exists tree. split; [exact E|]. now apply A.
  - destruct (P "[Ada][Scheme]") as [_ [_ [A E]]].
    destruct E as [tree E]; [discriminate|].
    exists tree. split; [exact E|]. now apply A.
Defined.




(** ** Possessive attachment of the authors *)

Lemma add_mode_suffix_prop d mode : d_prop (add_mode_suffix d mode) = d_prop d.
Proof. now destruct d. Qed.

Lemma add_mode_suffix_mode d mode : d_mode (add_mode_suffix d mode) = d_mode d.
Proof. now destruct d. Qed.

Lemma add_mode_suffix_leaf mode m n p :
  add_mode_suffix (Dia m n p []) mode = Dia m n p [].
Proof. reflexivity. Qed.

Lemma mapM_length {A B} (f : A -> res B) (l : list A) (l' : list B) :
  mapM f l = Ok l' -> length l' = length l.
Proof.
  revert l'. induction l as [|x l IH]; intros l'; simpl.
  - now intros [= <-].
  - destruct (f x) as [y|e]; simpl; [|discriminate].
    destruct (mapM f l) as [ys|e]; simpl; [|discriminate].
    intros [= <-]. simpl. now rewrite (IH ys).
Qed.

(** An enumeration of two or more items is anchored "und". *)
Lemma gen_enumeration_und items mode :
  2 <= length items ->
  exists nested final,
    gen_enumeration items mode = Ok (Node (coordinate "und" mode nested final)).
Proof.
  intros H. pose proof (gen_enumeration_total items mode) as T.
  destruct items as [|a [|b rest]]; simpl in H; try lia.
  destruct T as [nested [final [T _]]]. eauto.
Qed.

Lemma sing_or_plur_und d :
  d_prop d = "und" -> __sing_or_plur d = Ok "plur".
Proof. intros H. unfold __sing_or_plur. now rewrite H. Qed.

Lemma gen_lastname_only_shape name d :
  gen_lastname_only name = Ok d ->
  exists l, d = create_diamond "NP" "nachname" l [].
Proof.
  unfold gen_lastname_only, __split_name. cbn.
  destruct (index_last (split name)) as [l|e]; cbn; [|discriminate].
  intros [= <-]. eauto.
Qed.

Lemma gen_complete_name_shape name d :
  gen_complete_name name = Ok d ->
  exists l, d = create_diamond "NP" "nachname" l []
            \/ exists g, d = create_diamond "NP" "nachname" l [g].
Proof.
  unfold gen_complete_name, __split_name. cbn -[gen_nested_given_names].
  destruct (index_last (split name)) as [l|e]; cbn -[gen_nested_given_names];
    [|discriminate].
  destruct (but_last (split name)) as [|n ns].
  - intros [= <-]. eauto.
  - destruct (gen_nested_given_names (n :: ns)) as [[|g]|e]; cbn; try discriminate.
    intros [= <-]. eauto.
Qed.

Lemma no_num_key l gs m1 m2 :
  length gs <= 1 ->
  has_key (add_mode_suffix (add_mode_suffix (create_diamond "NP" "nachname" l gs) m1) m2)
          "02__NUM" = false.
Proof.
  intros H. destruct gs as [|g [|]]; simpl in H; try lia; [reflexivity|].
  cbn -[String.eqb].
  destruct (d_mode g =? m1)%string; cbn -[String.eqb];
    rewrite add_mode_suffix_mode;
    destruct (d_mode g =? m2)%string; reflexivity.
Qed.

(** What [__sing_or_plur] answers on the trees [lexicalize_authors]
    builds. *)
Lemma sing_or_plur_authors names how la :
  lexicalize_authors names how = Ok la ->
  (2 <= length names -> __sing_or_plur la = Ok "plur")
  /\ (length names = 1 -> d_prop la <> "und" -> __sing_or_plur la = Ok "sing").
Proof.
  unfold lexicalize_authors.
  destruct (str_in how ["abstract"; "lastnames"; "complete"]); [|discriminate].
  cbn -[gen_abstract_autor gen_enumeration mapM String.eqb].
  destruct (how =? "abstract")%string.
  { unfold gen_abstract_autor. rewrite gen_num_int.
    destruct (Z.gtb_spec (len names) 0) as [Hn|Hn]; [|discriminate].
    cbn. intros [= <-]. split; intros H.
    - destruct (Z.eqb_spec (len names) 1) as [E|E]; [unfold len in E; lia|].
      reflexivity.
    - destruct (Z.eqb_spec (len names) 1) as [E|E]; [|unfold len in E; lia].
      reflexivity. }
  assert (K : forall f,
    (forall name d, f name = Ok d ->
       exists l, d = create_diamond "NP" "nachname" l []
                 \/ exists g, d = create_diamond "NP" "nachname" l [g]) ->
    (x <- (ds <- mapM f names ;; gen_enumeration ds "NP") ;;
     d <- as_receiver x ;;
     ret (add_mode_suffix (add_mode_suffix d "NP") "N")) = Ok la ->
    (2 <= length names -> __sing_or_plur la = Ok "plur")
    /\ (length names = 1 -> d_prop la <> "und" -> __sing_or_plur la = Ok "sing")).
  { intros f Hf. cbn -[gen_enumeration mapM].
    destruct (mapM f names) as [ds|e] eqn:Hds; [|discriminate].
    cbn -[gen_enumeration].
    pose proof (mapM_length f names ds Hds) as Hlen.
    intros Hla. split; intros H.
    - destruct (gen_enumeration_und ds "NP") as [nested [final E]]; [lia|].
      revert Hla. rewrite E. cbn -[add_mode_suffix].
      intros [= <-]. apply sing_or_plur_und. reflexivity.
    - intros Hund. destruct names as [|name [|]]; try discriminate.
      simpl in Hds. destruct (f name) as [d|e] eqn:Hd; [|discriminate].
      simpl in Hds. injection Hds as <-.
      assert (S : exists l gs, d = create_diamond "NP" "nachname" l gs
                               /\ length gs <= 1).
      { destruct (Hf name d Hd) as [l [->|[g ->]]].
        - exists l, []. split; [reflexivity|simpl; lia].
        - exists l, [g]. split; [reflexivity|simpl; lia]. }
      destruct S as [l [gs [-> Hgs]]].
      assert (Ela : la = add_mode_suffix
                           (add_mode_suffix (create_diamond "NP" "nachname" l gs) "NP")
                           "N").
      { cbn in Hla. now injection Hla. }
      clear Hla. subst la.
      rewrite !add_mode_suffix_prop in Hund. cbn in Hund.
      unfold __sing_or_plur. rewrite !add_mode_suffix_prop.
      cbn [d_prop create_diamond].
      destruct (String.eqb_spec l "und"); [contradiction|].
      now rewrite no_num_key. }
  destruct (how =? "lastnames")%string.
  { apply K. intros name d Hd.
    destruct (gen_lastname_only_shape name d Hd) as [l ->]. eauto. }
  destruct (how =? "complete")%string; [|discriminate].
  apply K. apply gen_complete_name_shape.
Qed.

Lemma left_chain_mode anchor mode first rest :
  rest <> [] -> d_mode (left_chain anchor mode first rest) = mode.
Proof.
  intros H. destruct (snoc_cases rest) as [->|[r [x ->]]]; [contradiction|].
  now rewrite left_chain_snoc.
Qed.

(** The two children of an enumeration of two or more items of one mode
    carry that mode. *)
Lemma gen_enumeration_modes items mode :
  2 <= length items ->
  Forall (fun d => d_mode d = mode) items ->
  exists nested final,
    gen_enumeration items mode = Ok (Node (coordinate "und" mode nested final))
    /\ d_mode nested = mode /\ d_mode final = mode.
Proof.
  intros H F. destruct items as [|a [|b rest]]; simpl in H; try lia.
  destruct (snoc_cases rest) as [->|[r [x ->]]].
  - exists a, b. inversion F as [|? ? Ha F']. inversion F' as [|? ? Hb _].
    now repeat split.
  - exists (left_chain "komma" mode a (b :: r)), x.
    split; [apply gen_enumeration_chain|]. split.
    + now apply left_chain_mode.
    + rewrite !app_comm_cons in F. apply Forall_app in F.
      destruct F as [_ F]. now inversion F.
Qed.

Lemma random_choice_of_two rnd a b :
  random_choice rnd [a; b] = a \/ random_choice rnd [a; b] = b.
Proof.
  unfold random_choice. simpl length.
  pose proof (Nat.mod_upper_bound rnd 2 ltac:(lia)) as H.
  destruct (rnd mod 2) as [|[|n]]; simpl; [now left|now right|lia].
Qed.

(** With [authors_realize] given, [realize="random"] is the call with the
    realization drawn from "abstract" and "complete". *)
Lemma lexicalize_titles_random book_titles how rnd1 rnd2 authors :
  str_in how ["possessive"; "preposition"; "random"] = true ->
  lexicalize_titles book_titles "random" (Some how) rnd1 rnd2 authors
  = lexicalize_titles book_titles (random_choice rnd1 ["abstract"; "complete"])
      (Some how) rnd1 rnd2 authors.
Proof.
  intros H. unfold lexicalize_titles. rewrite H.
  destruct (random_choice_of_two rnd1 "abstract" "complete") as [-> | ->];
    reflexivity.
Qed.

(** The tree of the titles in "complete" mode has two children, and their
    keys are known. *)
Lemma complete_titles_shape book_titles :
  book_titles <> [] ->
  exists td m n p c1 c2 k1 k2,
    gen_enumeration (map gen_title book_titles) "NP" = Ok (Node td)
    /\ add_mode_suffix td "NP" = Dia m n p [(k1, c1); (k2, c2)]
    /\ ((k1 = "00__99" /\ k2 = "01__66") \/ (k1 = "00__NP1" /\ k2 = "01__NP2")).
Proof.
  intros H. destruct book_titles as [|t [|t' ts]]; [contradiction| |].
  - exists (gen_title t). cbn. do 7 eexists.
    split; [reflexivity|]. split; [reflexivity|]. now left.
  - destruct (gen_enumeration_modes (map gen_title (t :: t' :: ts)) "NP")
      as [nested [final [E [Hn Hf]]]].
    + simpl. lia.
    + apply Forall_forall. intros d Hd. apply in_map_iff in Hd.
      destruct Hd as [x [<- _]]. reflexivity.
    + exists (coordinate "und" "NP" nested final).
      cbn -[gen_enumeration map String.eqb]. rewrite Hn, Hf. cbn.
      do 7 eexists. split; [exact E|]. split; [reflexivity|]. now right.
Qed.

Lemma lexicalize_titles_possessive_run book_titles realize authors rnd1 rnd2 number :
  book_titles <> [] ->
  realize = "abstract" \/ realize = "complete" ->
  __sing_or_plur authors = Ok number ->
  if (number =? "sing")%string
  then exists d,
         fst (lexicalize_titles book_titles realize (Some "possessive")
                rnd1 rnd2 (Some authors)) = Ok d
         /\ article_keys d = []
  else fst (lexicalize_titles book_titles realize (Some "possessive")
              rnd1 rnd2 (Some authors))
       = Raise (AssertionError
                  "can't realize possesive form with more than one author").
Proof.
  intros Hb [-> | ->] Hn.
  - unfold lexicalize_titles, gen_abstract_title.
    cbn -[gen_num __sing_or_plur].
    rewrite (gen_num_len book_titles Hb).
    cbn -[__sing_or_plur]. rewrite Hn. cbn.
    destruct (number =? "sing")%string; cbn; [|reflexivity].
    eexists. split; reflexivity.
  - destruct (complete_titles_shape book_titles Hb)
      as [td [m [n [p [c1 [c2 [k1 [k2 [E [S K]]]]]]]]]].
    unfold lexicalize_titles.
    cbn -[gen_enumeration __sing_or_plur add_mode_suffix map].
    rewrite E. cbn -[__sing_or_plur add_mode_suffix]. rewrite S.
    cbn -[__sing_or_plur]. rewrite Hn. cbn.
    destruct (number =? "sing")%string; cbn; [|reflexivity].
    destruct K as [[-> ->]|[-> ->]]; cbn; eexists; split; reflexivity.
Qed.

Lemma str_in_cases x ys : str_in x ys = true -> In x ys.
Proof.
  unfold str_in. intros H. apply existsb_exists in H.
  destruct H as [y [Hy E]]. apply String.eqb_eq in E. now subst.
Qed.

(** C4, as the code has it. Let the authors tree be what
    [lexicalize_authors] builds, and let there be at least one title. With
    [authors_realize="possessive"], [lexicalize_titles] fails with a
    precondition violation whenever there is more than one author. With
    exactly one author, whose tree is not anchored "und", it succeeds for
    the realizations "abstract", "complete" and "random", and the returned
    title tree has no article child; for the realization "pronoun" it
    fails with a precondition violation, as a pronoun takes no author. *)
Theorem lexicalize_titles_possessive
    (names : list string) (how : string) (authors : Diamond)
    (book_titles : list string) (rnd1 rnd2 : nat) :
  lexicalize_authors names how = Ok authors ->
  book_titles <> [] ->
  fst (lexicalize_titles book_titles "pronoun" (Some "possessive")
         rnd1 rnd2 (Some authors))
  = Raise (AssertionError
             "can't realize title as pronoun with an author, e.g. 'Chomskys es'")
  /\ forall realize,
       str_in realize ["abstract"; "complete"; "random"] = true ->
       (2 <= length names ->
        fst (lexicalize_titles book_titles realize (Some "possessive")
               rnd1 rnd2 (Some authors))
        = Raise (AssertionError
                   "can't realize possesive form with more than one author"))
       /\ (length names = 1 -> d_prop authors <> "und" ->
           exists d,
             fst (lexicalize_titles book_titles realize (Some "possessive")
                    rnd1 rnd2 (Some authors)) = Ok d
             /\ article_keys d = []).
Proof.
  intros Ha Hb. split; [reflexivity|].
  intros realize Hr.
  destruct (sing_or_plur_authors names how authors Ha) as [Hplur Hsing].
  assert (R : exists realize',
             (realize' = "abstract" \/ realize' = "complete")
             /\ lexicalize_titles book_titles realize (Some "possessive")
                  rnd1 rnd2 (Some authors)
                = lexicalize_titles book_titles realize' (Some "possessive")
                    rnd1 rnd2 (Some authors)).
  { apply str_in_cases in Hr. simpl in Hr.
    destruct Hr as [<-|[<-|[<-|[]]]].
    - exists "abstract". auto.
    - exists "complete". auto.
    - exists (random_choice rnd1 ["abstract"; "complete"]). split.
      + apply random_choice_of_two.
      + now apply lexicalize_titles_random. }
  destruct R as [realize' [Hr' ->]].
  split.
  - intros H.
    apply (lexicalize_titles_possessive_run book_titles realize' authors
             rnd1 rnd2 "plur" Hb Hr' (Hplur H)).
  - intros H Hund.
    apply (lexicalize_titles_possessive_run book_titles realize' authors
             rnd1 rnd2 "sing" Hb Hr' (Hsing H Hund)).
Qed.

Lemma lexicalize_titles_possessive_witness :
  (exists authors,
     lexicalize_authors ["Kay"; "Manning"] "lastnames" = Ok authors
     /\ fst (lexicalize_titles ["random book"] "abstract" (Some "possessive")
               0 0 (Some authors))
        = Raise (AssertionError
                   "can't realize possesive form with more than one author"))
  /\ (exists authors d,
        lexicalize_authors ["Alan Kay"] "complete" = Ok authors
        /\ fst (lexicalize_titles ["Natural Language Processing"] "complete"
                  (Some "possessive") 0 0 (Some authors)) = Ok d
        /\ article_keys d = []).
Proof.
  split.
  - eexists. split; [reflexivity|].
    refine (proj1 (proj2 (lexicalize_titles_possessive
                            ["Kay"; "Manning"] "lastnames" _ ["random book"] 0 0
                            eq_refl _) "abstract" eq_refl) _).
    + discriminate.
    + simpl. lia.
  - eexists.
    destruct (proj2 (proj2 (lexicalize_titles_possessive
                              ["Alan Kay"] "complete" _
                              ["Natural Language Processing"] 0 0
                              eq_refl ltac:(discriminate)) "complete" eq_refl)
                eq_refl ltac:(discriminate)) as [d [Hd Hk]].
    exists d. split; [reflexivity|]. split; assumption.
Defined.

(** C4, as stated, fails: with exactly one author the call does not always
    succeed, for in "pronoun" mode it is rejected. *)
Lemma lexicalize_titles_possessive_pronoun :
  exists authors,
    lexicalize_authors ["Alan Kay"] "complete" = Ok authors
    /\ fst (lexicalize_titles ["book title"] "pronoun" (Some "possessive")
              0 0 (Some authors))
       = Raise (AssertionError
                  "can't realize title as pronoun with an author, e.g. 'Chomskys es'").
Proof. eexists. split; reflexivity. Qed.

(** A single author whose last name reads "und" is taken for several:
    [__sing_or_plur] looks at the anchor only. *)
Lemma lexicalize_titles_possessive_und :
  exists authors,
    lexicalize_authors ["Peter und"] "lastnames" = Ok authors
    /\ fst (lexicalize_titles ["book title"] "abstract" (Some "possessive")
              0 0 (Some authors))
       = Raise (AssertionError
                  "can't realize possesive form with more than one author").
Proof. eexists. split; reflexivity. Qed.

(** * Further properties *)

(** ** Sentence lexicalizers and the title they are given *)

(** X1. In [lexicalize_codeexamples] the patient phrase holds the negative
    quantifier exactly for the count 0; and for the count 0 the
    programming-language tree is neither used nor changed: the result is
    the one of the call without it, and the object is left as it was. *)
Theorem lexicalize_codeexamples_zero (n : Z) (lexeme : string)
    (title : Diamond) (plang : option Diamond) :
  str_in lexeme ["beinhalten"; "enthalten"] = true ->
  (exists clause patiens,
     fst (lexicalize_codeexamples (PyInt n) lexeme (ExampleArgs title plang)) = Ok clause
     /\ patiens_of clause = Some patiens
     /\ has_quantkein patiens = (n =? 0)%Z)
  /\ (n = 0%Z ->
      fst (lexicalize_codeexamples (PyInt n) lexeme (ExampleArgs title plang))
      = fst (lexicalize_codeexamples (PyInt n) lexeme (ExampleArgs title None))
      /\ lexicalized_plang
           (snd (lexicalize_codeexamples (PyInt n) lexeme (ExampleArgs title plang)))
         = plang).
Proof.
  intros Hl. split.
  - unfold lexicalize_codeexamples. rewrite Hl. cbn.
    destruct (n =? 0)%Z; cbn.
    + eexists. eexists. repeat split.
    + destruct plang as [p|]; cbn; eexists; eexists; repeat split.
  - intros ->. unfold lexicalize_codeexamples. rewrite Hl. cbn. split; reflexivity.
Qed.

Lemma lexicalize_codeexamples_zero_witness :
  exists clause patiens,
    fst (lexicalize_codeexamples (PyInt 0) "enthalten"
           (ExampleArgs (gen_title "foo") (Some (gen_art "def")))) = Ok clause
    /\ patiens_of clause = Some patiens
    /\ has_quantkein patiens = true.
Proof.
  apply (lexicalize_codeexamples_zero 0 "enthalten" (gen_title "foo")
           (Some (gen_art "def"))).
  reflexivity.
Defined.

(** X2. [lexicalize_codeexamples] and [lexicalize_exercises] fail fast:
    they raise exactly when the lexeme is neither "beinhalten" nor
    "enthalten" or the count is no integer, and a call that raises has
    changed none of its argument trees. *)
Theorem lexicalize_examples_fail_fast (count : int_or_str) (lexeme : string) :
  (forall args,
     ((exists e, fst (lexicalize_codeexamples count lexeme args) = Raise e)
      <-> (str_in lexeme ["beinhalten"; "enthalten"] = false
           \/ exists e, int count = Raise e))
     /\ ((exists e, fst (lexicalize_codeexamples count lexeme args) = Raise e) ->
         snd (lexicalize_codeexamples count lexeme args) = args))
  /\ (forall title,
        ((exists e, fst (lexicalize_exercises count lexeme title) = Raise e)
         <-> (str_in lexeme ["beinhalten"; "enthalten"] = false
              \/ exists e, int count = Raise e))
        /\ ((exists e, fst (lexicalize_exercises count lexeme title) = Raise e) ->
            snd (lexicalize_exercises count lexeme title) = title)).
Proof.
  split.
  - intros [title plang]. unfold lexicalize_codeexamples.
    destruct (str_in lexeme ["beinhalten"; "enthalten"]) eqn:Hl; cbn.
    2:{ split; [split; eauto|reflexivity]. }
    destruct (int count) as [n|e] eqn:Hc; cbn.
    2:{ split; [split; eauto|reflexivity]. }
    destruct (n =? 0)%Z; [|destruct plang]; cbn;
      (split; [split; [intros [e H]; discriminate
                      |intros [H|[e H]]; discriminate]
              |intros [e H]; discriminate]).
  - intros title. unfold lexicalize_exercises.
    destruct (str_in lexeme ["beinhalten"; "enthalten"]) eqn:Hl; cbn.
    2:{ split; [split; eauto|reflexivity]. }
    destruct (int count) as [n|e] eqn:Hc; cbn.
    2:{ split; [split; eauto|reflexivity]. }
    split; [split; [intros [e H]; discriminate
                   |intros [H|[e H]]; discriminate]
           |intros [e H]; discriminate].
Qed.

(** X3. For each of the lexemes "umfang", "umfassen", "länge" and
    "random", and for every draw, [lexicalize_pages] returns a sentence
    tree, never [None]. Its second child is the title object as the call
    leaves it, which differs from the title passed in its mode only: the
    mode is "SUBJ" under the copula "sein-kop" and "AGENS" under "haben"
    and "umfassen". *)
Theorem lexicalize_pages_supported_lexeme
    (pages : int_or_str) (lexeme : string) (rnd : nat) (title : Diamond) :
  str_in lexeme ["umfang"; "umfassen"; "länge"; "random"] = true ->
  exists tree,
    fst (lexicalize_pages pages lexeme rnd title) = Ok (Some tree)
    /\ nth_error (children tree) 1 = Some (snd (lexicalize_pages pages lexeme rnd title))
    /\ same_but_mode title (snd (lexicalize_pages pages lexeme rnd title))
    /\ ((d_prop tree = "sein-kop"
         /\ d_mode (snd (lexicalize_pages pages lexeme rnd title)) = "SUBJ")
        \/ ((d_prop tree = "haben" \/ d_prop tree = "umfassen")
            /\ d_mode (snd (lexicalize_pages pages lexeme rnd title)) = "AGENS")).
Proof.
  intros H. apply str_in_cases in H. simpl in H.
  assert (K : forall l, l = "umfang" \/ l = "umfassen" \/ l = "länge" ->
    exists tree,
      fst (lexicalize_pages pages l rnd title) = Ok (Some tree)
      /\ nth_error (children tree) 1 = Some (snd (lexicalize_pages pages l rnd title))
      /\ same_but_mode title (snd (lexicalize_pages pages l rnd title))
      /\ ((d_prop tree = "sein-kop"
           /\ d_mode (snd (lexicalize_pages pages l rnd title)) = "SUBJ")
          \/ ((d_prop tree = "haben" \/ d_prop tree = "umfassen")
              /\ d_mode (snd (lexicalize_pages pages l rnd title)) = "AGENS"))).
  { intros l [->|[->| ->]]; cbn; eexists;
      (split; [reflexivity|]); (split; [reflexivity|]);
      (split; [now repeat split|]); auto. }
  destruct H as [<-|[<-|[<-|[<-|[]]]]]; try (apply K; tauto).
  assert (R : lexicalize_pages pages "random" rnd title
              = lexicalize_pages pages
                  (random_choice rnd ["umfang"; "umfassen"; "länge"]) rnd title).
  { unfold lexicalize_pages, random_choice. simpl length.
    pose proof (Nat.mod_upper_bound rnd 3 ltac:(lia)) as B.
    destruct (rnd mod 3) as [|[|[|n]]]; try reflexivity. lia. }
  rewrite R. apply K.
  unfold random_choice. simpl length.
  pose proof (Nat.mod_upper_bound rnd 3 ltac:(lia)) as B.
  destruct (rnd mod 3) as [|[|[|n]]]; simpl; try tauto. lia.
Qed.

Lemma lexicalize_pages_supported_lexeme_witness :
  exists tree,
    fst (lexicalize_pages (PyInt 600) "random" 7 (gen_title "foo")) = Ok (Some tree)
    /\ nth_error (children tree) 1
       = Some (snd (lexicalize_pages (PyInt 600) "random" 7 (gen_title "foo"))).
Proof.
  destruct (lexicalize_pages_supported_lexeme (PyInt 600) "random" 7 (gen_title "foo"))
    as [tree [H1 [H2 _]]]; [reflexivity|].
  exists tree. split; assumption.
Defined.

Lemma lexicalize_examples_fail_fast_witness :
  snd (lexicalize_codeexamples (PyInt 1) "random"
         (ExampleArgs (gen_title "foo") (Some (gen_art "def"))))
  = ExampleArgs (gen_title "foo") (Some (gen_art "def"))
  /\ snd (lexicalize_exercises (PyStr "many") "enthalten" (gen_title "foo"))
     = gen_title "foo".
Proof.
  destruct (lexicalize_examples_fail_fast (PyInt 1) "random") as [C _].
  destruct (lexicalize_examples_fail_fast (PyStr "many") "enthalten") as [_ E].
  split.
  - apply (proj2 (C (ExampleArgs (gen_title "foo") (Some (gen_art "def"))))).
    eexists. reflexivity.
  - apply (proj2 (E (gen_title "foo"))). eexists. reflexivity.
Defined.

(** X4. [lexicalize_target] knows the four audience levels 0 to 3. For
    these it returns a sentence whose patient phrase has the extra
    "Grundkenntnis" attribute exactly for level 1; for any other integer it
    raises [KeyError], after it has relabeled the title: in both cases the
    title object is left with the mode "AGENS". *)
Theorem lexicalize_target_levels (n : Z) (title : Diamond) :
  snd (lexicalize_target (PyInt n) title) = change_mode title "AGENS"
  /\ if ((0 <=? n) && (n <=? 3))%Z
     then exists tree patiens,
            fst (lexicalize_target (PyInt n) title) = Ok tree
            /\ nth_error (children tree) 1 = Some (change_mode title "AGENS")
            /\ nth_error (children tree) 3 = Some patiens
            /\ has_key patiens "02__ATTRIB" = (n =? 1)%Z
            /\ length (children patiens) = (if (n =? 1)%Z then 3 else 2)
     else fst (lexicalize_target (PyInt n) title) = Raise (KeyError (str_int n)).
Proof.
  assert (D : (n = 0 \/ n = 1 \/ n = 2 \/ n = 3 \/ (n < 0 \/ 3 < n))%Z) by lia.
  destruct D as [->|[->|[->|[->|D]]]];
    try (cbn; split; [reflexivity|]; eexists; eexists; repeat split).
  assert (L : dict_get_int [(0, "Anfänger"); (1, "Einsteiger");
                            (2, "Fortgeschritten"); (3, "Experte")]%Z n
              = Raise (KeyError (str_int n))).
  { cbn -[Z.eqb str_int].
    destruct (Z.eqb_spec 0 n); [lia|]. destruct (Z.eqb_spec 1 n); [lia|].
    destruct (Z.eqb_spec 2 n); [lia|]. destruct (Z.eqb_spec 3 n); [lia|].
    reflexivity. }
  unfold lexicalize_target. cbn -[dict_get_int str_int Z.eqb]. rewrite L.
  split; [reflexivity|].
  destruct (Z.leb_spec 0 n), (Z.leb_spec n 3); cbn -[str_int]; try reflexivity.
  lia.
Qed.

(** X5. [lexicalize_language] checks the realization before it touches the
    title: an unknown realization is an assertion failure and the title is
    left as it was. A language other than "German" and "English" is a
    [KeyError] raised after the title has been relabeled to "SUBJ". For the
    two languages the sentence holds the title as subject and a complement
    anchored "Deutsch" or "Englisch" as a noun, and "Sprache" with the
    lower-case adjective modifier otherwise. *)
Theorem lexicalize_language_cases (language realize : string) (title : Diamond) :
  (str_in realize ["noun"; "adjective"] = false ->
   lexicalize_language language realize title = (Raise (AssertionError ""), title))
  /\ (str_in realize ["noun"; "adjective"] = true ->
      str_in language ["German"; "English"] = false ->
      lexicalize_language language realize title
      = (Raise (KeyError language), change_mode title "SUBJ"))
  /\ (forall name,
        dict_get [("German", "Deutsch"); ("English", "Englisch")] language = Ok name ->
        (exists prep,
           lexicalize_language language "noun" title
           = (Ok (create_diamond "" "prädikation" "sein-kop"
                    [gen_tempus "präs"; change_mode title "SUBJ";
                     create_diamond "PRKOMPL" "abstraktum" name
                       [create_diamond "NUM" "" "sing" []; prep]]),
              change_mode title "SUBJ")
           /\ d_prop prep = "auf")
        /\ (exists prep komp,
              lexicalize_language language "adjective" title
              = (Ok (create_diamond "" "prädikation" "sein-kop"
                       [gen_tempus "präs"; change_mode title "SUBJ";
                        create_diamond "PRKOMPL" "sorte" "Sprache"
                          [create_diamond "NUM" "" "sing" []; prep;
                           create_diamond "MOD" "eigenschaft" (lower name) [komp]]]),
                 change_mode title "SUBJ")
              /\ d_prop prep = "in" /\ d_prop komp = "pos")).
Proof.
  split; [|split].
  - intros H. unfold lexicalize_language. now rewrite H.
  - intros Hr Hl. unfold lexicalize_language. rewrite Hr.
    cbn -[String.eqb].
    pose proof (str_in_false_eqb language "German" _ Hl ltac:(simpl; tauto)) as G.
    pose proof (str_in_false_eqb language "English" _ Hl ltac:(simpl; tauto)) as E.
    rewrite String.eqb_sym in G. rewrite String.eqb_sym in E.
    apply str_in_cases in Hr. simpl in Hr.
    destruct Hr as [<-|[<-|[]]]; cbn -[String.eqb]; rewrite G, E; reflexivity.
  - intros name H. split.
    + unfold lexicalize_language. cbn -[dict_get]. rewrite H. cbn.
      exists (gen_prep "auf" "zusammenhang"). split; reflexivity.
    + unfold lexicalize_language. cbn -[dict_get]. rewrite H. cbn.
      exists (gen_prep "in" "zusammenhang"), (create_diamond "KOMP" "" "pos" []).
      split; [reflexivity|]. split; reflexivity.
Qed.

Lemma lexicalize_language_cases_witness :
  lexicalize_language "German" "verb" (gen_title "foo")
  = (Raise (AssertionError ""), gen_title "foo")
  /\ lexicalize_language "French" "noun" (gen_title "foo")
     = (Raise (KeyError "French"), change_mode (gen_title "foo") "SUBJ")
  /\ exists prep komp,
       lexicalize_language "English" "adjective" (gen_title "foo")
       = (Ok (create_diamond "" "prädikation" "sein-kop"
                [gen_tempus "präs"; change_mode (gen_title "foo") "SUBJ";
                 create_diamond "PRKOMPL" "sorte" "Sprache"
                   [create_diamond "NUM" "" "sing" []; prep;
                    create_diamond "MOD" "eigenschaft" "englisch" [komp]]]),
          change_mode (gen_title "foo") "SUBJ")
       /\ d_prop prep = "in" /\ d_prop komp = "pos".
Proof.
  split; [|split].
  - apply (proj1 (lexicalize_language_cases "German" "verb" (gen_title "foo"))).
    reflexivity.
  - apply (proj1 (proj2 (lexicalize_language_cases "French" "noun" (gen_title "foo"))));
      reflexivity.
  - apply (proj2 (proj2 (proj2 (lexicalize_language_cases "English" "noun"
                                   (gen_title "foo"))) "Englisch" eq_refl)).
Defined.

(** X6. No sentence lexicalizer changes more of the title it is given than
    its mode: whatever the other arguments are and whether the call returns
    or raises, [lexicalize_pages], [lexicalize_exercises],
    [lexicalize_codeexamples], [lexicalize_language], [lexicalize_target]
    and [lexicalize_year] leave the category, the anchor and the children
    of the title object as they were. *)
Theorem title_changes_mode_only (title : Diamond) :
  (forall pages lexeme rnd,
     same_but_mode title (snd (lexicalize_pages pages lexeme rnd title)))
  /\ (forall count lexeme,
        same_but_mode title (snd (lexicalize_exercises count lexeme title)))
  /\ (forall count lexeme plang,
        same_but_mode title
          (example_title
             (snd (lexicalize_codeexamples count lexeme (ExampleArgs title plang)))))
  /\ (forall language realize,
        same_but_mode title (snd (lexicalize_language language realize title)))
  /\ (forall target, same_but_mode title (snd (lexicalize_target target title)))
  /\ (forall year, same_but_mode title (snd (lexicalize_year year title))).
Proof.
  assert (R : same_but_mode title title) by now repeat split.
  assert (C : forall m, same_but_mode title (change_mode title m))
    by now repeat split.
  refine (conj _ (conj _ (conj _ (conj _ (conj _ _))))); intros.
  - unfold lexicalize_pages. cbn -[String.eqb random_choice].
    repeat match goal with
           | |- context [if String.eqb ?a ?b then _ else _] =>
               destruct (String.eqb a b)
           end; apply C.
  - unfold lexicalize_exercises.
    destruct (str_in lexeme ["beinhalten"; "enthalten"]); cbn; [|apply R].
    destruct (int count); cbn; [apply C|apply R].
  - unfold lexicalize_codeexamples.
    destruct (str_in lexeme ["beinhalten"; "enthalten"]); cbn; [|apply R].
    destruct (int count) as [n|e]; cbn; [|apply R].
    destruct (n =? 0)%Z; [|destruct plang]; apply C.
  - unfold lexicalize_language.
    destruct (str_in realize ["noun"; "adjective"]);
      cbn -[String.eqb dict_get]; [|apply R].
    destruct (realize =? "noun")%string; cbn -[String.eqb dict_get].
    + destruct (dict_get _ language); apply C.
    + destruct (realize =? "adjective")%string; cbn -[String.eqb dict_get];
        [destruct (dict_get _ language)|]; apply C.
  - unfold lexicalize_target.
    destruct (int target) as [n|e]; cbn -[dict_get_int]; [|apply R].
    destruct (dict_get_int _ n); cbn; [|apply C].
    destruct (n =? 1)%Z; apply C.
  - apply C.
Qed.

(** ** Names and authors *)

Lemma has_space_snoc tok c :
  has_space tok = false -> is_space c = false ->
  has_space (tok ++ String c "")%string = false.
Proof.
  induction tok as [|a tok IH]; simpl; intros H Hc.
  - now rewrite Hc.
  - apply orb_false_elim in H. destruct H as [Ha Ht].
    now rewrite Ha, IH.
Qed.

Lemma split_from_tokens s : forall tok,
  has_space tok = false ->
  Forall (fun t => has_space t = false /\ t <> "") (split_from s tok).
Proof.
  induction s as [|c s IH]; intros tok Ht; simpl.
  - destruct (String.eqb_spec tok ""); [constructor|].
    constructor; [now split|constructor].
  - destruct (is_space c) eqn:Hc.
    + destruct (String.eqb_spec tok "").
      * now apply IH.
      * constructor; [now split|now apply IH].
    + apply IH. now apply has_space_snoc.
Qed.

Lemma split_only_space s : only_space s = true -> split s = [].
Proof.
  unfold split. induction s as [|c s IH]; simpl; [reflexivity|].
  intros H. apply andb_prop in H. destruct H as [Hc Hs].
  rewrite Hc. simpl. now apply IH.
Qed.

(** X7. [__split_name] takes the last whitespace-delimited token for the
    last name and the tokens before it for the given names: together they
    are the tokens of the name in order, and the last name is non-empty and
    holds no whitespace, so a surname of several words is never returned
    whole. A name without a token, such as the empty string or a string of
    blanks, raises [IndexError]. *)
Theorem split_name_tokens (name : string) :
  (only_space name = true -> __split_name name = Raise IndexError)
  /\ (has_token name ->
      exists given_names last_name,
        __split_name name = Ok (given_names, last_name)
        /\ given_names ++ [last_name] = split name
        /\ has_space last_name = false /\ last_name <> ""
        /\ Forall (fun t => has_space t = false /\ t <> "") given_names).
Proof.
  split.
  - intros H. unfold __split_name. now rewrite (split_only_space name H).
  - unfold has_token. intros H.
    destruct (snoc_cases (split name)) as [E|[given [last E]]]; [contradiction|].
    exists given, last. unfold __split_name. rewrite E.
    rewrite index_last_snoc, but_last_snoc. split; [reflexivity|].
    split; [reflexivity|].
    pose proof (split_from_tokens name "" eq_refl) as F.
    fold (split name) in F. rewrite E in F. apply Forall_app in F.
    destruct F as [Fg Fl]. inversion Fl as [|? ? [H1 H2] _]. now repeat split.
Qed.

Lemma split_name_tokens_witness :
  __split_name "   " = Raise IndexError
  /\ exists given_names last_name,
       __split_name "John von Neumann" = Ok (given_names, last_name)
       /\ given_names ++ [last_name] = ["John"; "von"; "Neumann"]
       /\ has_space last_name = false.
Proof.
  split.
  - apply (proj1 (split_name_tokens "   ")). reflexivity.
  - destruct (proj2 (split_name_tokens "John von Neumann")) as [g [l [H1 [H2 [H3 _]]]]].
    + discriminate.
    + exists g, l. repeat split; assumption.
Defined.

Lemma split_name_of_tokens name given last :
  split name = given ++ [last] -> __split_name name = Ok (given, last).
Proof.
  intros E. unfold __split_name.
  now rewrite E, index_last_snoc, but_last_snoc.
Qed.

Lemma gen_complete_name_of_tokens name given last :
  split name = given ++ [last] ->
  gen_complete_name name
  = Ok (create_diamond "NP" "nachname" last
          match nest_given_names given with
          | Node g => [g]
          | EmptyList => []
          end).
Proof.
  intros E. unfold gen_complete_name.
  rewrite (split_name_of_tokens name given last E). cbn -[gen_nested_given_names].
  destruct given as [|n ns]; [reflexivity|].
  rewrite gen_nested_given_names_nest. cbn -[nest_given_names].
  pose proof (nest_given_names_shape (n :: ns)) as S.
  destruct (nest_given_names (n :: ns)); [discriminate|reflexivity].
Qed.

(** X8. For a name with the tokens [given ++ [last]], [gen_lastname_only]
    gives the leaf anchored at the last token, and [gen_complete_name] a
    node with the same mode, category and anchor that has no child when
    there is no given name and otherwise one child: the given names
    nested, the last of them outermost, as deep as there are given
    names. *)
Theorem gen_complete_name_shape_of_tokens (name : string)
    (given : list string) (last : string) :
  split name = given ++ [last] ->
  gen_lastname_only name = Ok (create_diamond "NP" "nachname" last [])
  /\ exists d,
       gen_complete_name name = Ok d
       /\ d_mode d = "NP" /\ d_nom d = "nachname" /\ d_prop d = last
       /\ (given = [] -> children d = [])
       /\ (given <> [] ->
           exists g, children d = [g]
                     /\ anchors g = rev given /\ depth g = length given).
Proof.
  intros E. split.
  - unfold gen_lastname_only. now rewrite (split_name_of_tokens name given last E).
  - eexists. split; [apply (gen_complete_name_of_tokens name given last E)|].
    pose proof (nest_given_names_shape given) as S.
    destruct (nest_given_names given) as [|g].
    + refine (conj eq_refl (conj eq_refl (conj eq_refl (conj _ _)))).
      * reflexivity.
      * intros H. contradiction.
    + destruct S as [Hd Ha].
      refine (conj eq_refl (conj eq_refl (conj eq_refl (conj _ _)))).
      * intros ->. destruct g. simpl in Hd. discriminate Hd.
      * intros _. exists g. split; [reflexivity|]. now split.
Qed.

Lemma gen_complete_name_shape_of_tokens_witness :
  gen_lastname_only "Christopher D. Manning"
  = Ok (create_diamond "NP" "nachname" "Manning" [])
  /\ exists d g,
       gen_complete_name "Christopher D. Manning" = Ok d
       /\ children d = [g] /\ anchors g = ["D."; "Christopher"].
Proof.
  destruct (gen_complete_name_shape_of_tokens "Christopher D. Manning"
              ["Christopher"; "D."] "Manning" eq_refl)
    as [L [d [H [_ [_ [_ [_ G]]]]]]].
  split; [exact L|].
  destruct G as [g [Hc [Ha _]]]; [discriminate|].
  exists d, g. repeat split; assumption.
Defined.

Lemma has_token_tokens name :
  has_token name -> exists given last, split name = given ++ [last].
Proof.
  unfold has_token. intros H.
  destruct (snoc_cases (split name)) as [E|E]; [contradiction|exact E].
Qed.

Lemma name_generators_ok name :
  has_token name ->
  (exists d, gen_lastname_only name = Ok d)
  /\ (exists d, gen_complete_name name = Ok d).
Proof.
  intros H. destruct (has_token_tokens name H) as [given [last E]]. split.
  - unfold gen_lastname_only. rewrite (split_name_of_tokens name given last E).
    cbn. eauto.
  - rewrite (gen_complete_name_of_tokens name given last E). eauto.
Qed.

Lemma name_generators_blank name :
  split name = [] ->
  gen_lastname_only name = Raise IndexError
  /\ gen_complete_name name = Raise IndexError.
Proof.
  intros E. unfold gen_lastname_only, gen_complete_name, __split_name.
  rewrite E. split; reflexivity.
Qed.

Lemma name_generators_raise name e :
  (gen_lastname_only name = Raise e -> e = IndexError)
  /\ (gen_complete_name name = Raise e -> e = IndexError).
Proof.
  destruct (split name) as [|t ts] eqn:E.
  - destruct (name_generators_blank name E) as [-> ->].
    split; intros [= <-]; reflexivity.
  - destruct (name_generators_ok name) as [[d ->] [d' ->]].
    + unfold has_token. rewrite E. discriminate.
    + split; discriminate.
Qed.

Lemma mapM_all_ok {A B} (f : A -> res B) (l : list A) :
  Forall (fun x => exists y, f x = Ok y) l -> exists l', mapM f l = Ok l'.
Proof.
  induction 1 as [|x l [y Hy] _ [l' IH]]; simpl; [eauto|].
  rewrite Hy, IH. simpl. eauto.
Qed.

Lemma mapM_first_error {A B} (f : A -> res B) (l : list A) (err : exn) :
  (forall x e, f x = Raise e -> e = err) ->
  Exists (fun x => exists e, f x = Raise e) l ->
  mapM f l = Raise err.
Proof.
  intros Hf. induction l as [|x l IH]; intros H; [inversion H|].
  simpl. destruct (f x) as [y|e] eqn:Hx; simpl.
  - inversion H as [? ? [e He]|? ? Ht]; subst; [congruence|].
    now rewrite (IH Ht).
  - now rewrite (Hf x e Hx).
Qed.

Lemma lexicalize_authors_ok authors how :
  authors <> [] -> Forall has_token authors ->
  str_in how ["abstract"; "lastnames"; "complete"] = true ->
  exists d, lexicalize_authors authors how = Ok d.
Proof.
  intros Hne Ht Hh. unfold lexicalize_authors. rewrite Hh.
  cbn -[gen_abstract_autor gen_enumeration mapM String.eqb].
  assert (K : forall f,
    (forall name, has_token name -> exists d, f name = Ok d) ->
    exists d,
      (x <- (ds <- mapM f authors ;; gen_enumeration ds "NP") ;;
       d <- as_receiver x ;;
       ret (add_mode_suffix (add_mode_suffix d "NP") "N")) = Ok d).
  { intros f Hf.
    destruct (mapM_all_ok f authors) as [ds Hds].
    { eapply Forall_impl; [|exact Ht]. intros name. apply Hf. }
    cbn -[gen_enumeration mapM]. rewrite Hds. cbn -[gen_enumeration].
    destruct (gen_enumeration_node ds "NP") as [d Hd].
    { intros ->. apply mapM_length in Hds. destruct authors; [contradiction|].
      discriminate Hds. }
    rewrite Hd. cbn. eauto. }
  destruct (how =? "abstract")%string eqn:E1.
  { unfold gen_abstract_autor. rewrite (gen_num_len authors Hne). cbn. eauto. }
  destruct (how =? "lastnames")%string eqn:E2.
  { apply K. intros name Hn. apply (name_generators_ok name Hn). }
  destruct (how =? "complete")%string eqn:E3.
  { apply K. intros name Hn. apply (name_generators_ok name Hn). }
  unfold str_in in Hh. simpl in Hh. rewrite E1, E2, E3 in Hh. discriminate.
Qed.

Lemma lexicalize_authors_blank authors how :
  how = "lastnames" \/ how = "complete" ->
  Exists (fun name => split name = []) authors ->
  lexicalize_authors authors how = Raise IndexError.
Proof.
  intros Hh Hb. unfold lexicalize_authors.
  destruct Hh as [-> | ->]; cbn -[gen_enumeration mapM].
  - rewrite (mapM_first_error gen_lastname_only authors IndexError);
      [reflexivity|intros x e; apply name_generators_raise|].
    eapply Exists_impl; [|exact Hb]. intros name E.
    exists IndexError. apply (name_generators_blank name E).
  - rewrite (mapM_first_error gen_complete_name authors IndexError);
      [reflexivity|intros x e; apply name_generators_raise|].
    eapply Exists_impl; [|exact Hb]. intros name E.
    exists IndexError. apply (name_generators_blank name E).
Qed.

(** X9. [lexicalize_authors] returns a tree in each of its three
    realizations for every non-empty list of names that have a token each;
    [__sing_or_plur] reads "plur" off the tree of two or more authors, and
    "sing" off the tree of one author unless that tree is anchored
    "und". *)
Theorem lexicalize_authors_succeeds (authors : list string) (how : string) :
  authors <> [] -> Forall has_token authors ->
  str_in how ["abstract"; "lastnames"; "complete"] = true ->
  exists d,
    lexicalize_authors authors how = Ok d
    /\ (2 <= length authors -> __sing_or_plur d = Ok "plur")
    /\ (length authors = 1 -> d_prop d <> "und" -> __sing_or_plur d = Ok "sing").
Proof.
  intros Hne Ht Hh.
  destruct (lexicalize_authors_ok authors how Hne Ht Hh) as [d Hd].
  exists d. split; [exact Hd|]. exact (sing_or_plur_authors authors how d Hd).
Qed.

Lemma lexicalize_authors_succeeds_witness :
  exists d,
    lexicalize_authors ["Alan Kay"; "John Hopcroft"] "complete" = Ok d
    /\ __sing_or_plur d = Ok "plur".
Proof.
  destruct (lexicalize_authors_succeeds ["Alan Kay"; "John Hopcroft"] "complete")
    as [d [Hd [Hp _]]].
  - discriminate.
  - repeat constructor; discriminate.
  - reflexivity.
  - exists d. split; [exact Hd|]. apply Hp. simpl. lia.
Defined.

(** X10. What [lexicalize_authors] rejects: a realization other than
    "abstract", "lastnames" and "complete" and, in "abstract", the empty
    list of authors are assertion failures; in "lastnames" and "complete" a
    name without a token, such as the empty string, raises [IndexError]. *)
Theorem lexicalize_authors_rejects (authors : list string) (how : string) :
  (str_in how ["abstract"; "lastnames"; "complete"] = false ->
   lexicalize_authors authors how
   = Raise (AssertionError
              "choose 1 of these author realizations: abstract, lastnames, complete"))
  /\ (authors = [] ->
      lexicalize_authors authors "abstract"
      = Raise (AssertionError "count has to be >= 1"))
  /\ (how = "lastnames" \/ how = "complete" ->
      Exists (fun name => split name = []) authors ->
      lexicalize_authors authors how = Raise IndexError).
Proof.
  split; [|split].
  - intros H. unfold lexicalize_authors. now rewrite H.
  - intros ->. reflexivity.
  - apply lexicalize_authors_blank.
Qed.

Lemma lexicalize_authors_rejects_witness :
  lexicalize_authors ["Alan Kay"] "pronoun"
  = Raise (AssertionError
             "choose 1 of these author realizations: abstract, lastnames, complete")
  /\ lexicalize_authors [] "abstract" = Raise (AssertionError "count has to be >= 1")
  /\ lexicalize_authors ["Alan Kay"; " "] "complete" = Raise IndexError.
Proof.
  split; [|split].
  - apply (proj1 (lexicalize_authors_rejects ["Alan Kay"] "pronoun")). reflexivity.
  - apply (proj1 (proj2 (lexicalize_authors_rejects [] "abstract"))). reflexivity.
  - apply (proj2 (proj2 (lexicalize_authors_rejects ["Alan Kay"; " "] "complete"))).
    + now right.
    + apply Exists_cons_tl. apply Exists_cons_hd. reflexivity.
Defined.

(** X11. [lexicalize_authors_variations] builds its dictionary for every
    non-empty list of names that have a token each: it holds exactly the
    keys "abstract", "complete" and "lastnames", each with the tree
    [lexicalize_authors] gives for it. For the empty list it fails with the
    assertion of the abstract realization, and for a list with a name
    without a token it raises [IndexError]. *)
Theorem lexicalize_authors_variations_cases (authors : list string) :
  (authors = [] ->
   lexicalize_authors_variations authors
   = Raise (AssertionError "count has to be >= 1"))
  /\ (authors <> [] -> Exists (fun name => split name = []) authors ->
      lexicalize_authors_variations authors = Raise IndexError)
  /\ (authors <> [] -> Forall has_token authors ->
      exists dict,
        lexicalize_authors_variations authors = Ok dict
        /\ map fst dict = ["abstract"; "complete"; "lastnames"]
        /\ forall how d,
             variation dict how = Some d <-> 
             (str_in how ["abstract"; "complete"; "lastnames"] = true
              /\ lexicalize_authors authors how = Ok d)).
Proof.
  split; [|split].
  - intros ->. reflexivity.
  - intros Hne Hb. unfold lexicalize_authors_variations. cbn -[lexicalize_authors].
    assert (A : exists d, lexicalize_authors authors "abstract" = Ok d).
    { unfold lexicalize_authors, gen_abstract_autor. cbn -[gen_num].
      rewrite (gen_num_len authors Hne). cbn. eauto. }
    destruct A as [d ->].
    rewrite (lexicalize_authors_blank authors "complete") by (auto).
    reflexivity.
  - intros Hne Ht. unfold lexicalize_authors_variations.
    cbn -[lexicalize_authors str_in].
    destruct (lexicalize_authors_ok authors "abstract" Hne Ht eq_refl) as [a Ha].
    destruct (lexicalize_authors_ok authors "complete" Hne Ht eq_refl) as [c Hc].
    destruct (lexicalize_authors_ok authors "lastnames" Hne Ht eq_refl) as [l Hl].
    rewrite Ha, Hc, Hl. cbn -[lexicalize_authors str_in].
    eexists. split; [reflexivity|]. split; [reflexivity|].
    intros how d. unfold variation. cbn -[lexicalize_authors String.eqb str_in].
    split.
    + destruct (String.eqb_spec "abstract" how) as [<-|Na].
      { intros [= <-]. now split. }
      destruct (String.eqb_spec "complete" how) as [<-|Nc].
      { intros [= <-]. now split. }
      destruct (String.eqb_spec "lastnames" how) as [<-|Nl].
      { intros [= <-]. now split. }
      discriminate.
    + intros [Hh Hd]. apply str_in_cases in Hh. simpl in Hh.
      destruct Hh as [<-|[<-|[<-|[]]]]; cbn; congruence.
Qed.

Lemma lexicalize_authors_variations_cases_witness :
  lexicalize_authors_variations [] = Raise (AssertionError "count has to be >= 1")
  /\ lexicalize_authors_variations ["Alan Kay"; ""] = Raise IndexError
  /\ exists dict,
       lexicalize_authors_variations ["Christopher Manning"; "Alan Kay"] = Ok dict
       /\ map fst dict = ["abstract"; "complete"; "lastnames"].
Proof.
  split; [|split].
  - apply (proj1 (lexicalize_authors_variations_cases [])). reflexivity.
  - apply (proj1 (proj2 (lexicalize_authors_variations_cases ["Alan Kay"; ""]))).
    + discriminate.
    + apply Exists_cons_tl. apply Exists_cons_hd. reflexivity.
  - destruct (proj2 (proj2 (lexicalize_authors_variations_cases
                              ["Christopher Manning"; "Alan Kay"])))
      as [dict [H1 [H2 _]]].
    + discriminate.
    + repeat constructor; discriminate.
    + exists dict. split; assumption.
Defined.

(** ** Titles and their authors *)

Lemma mbind_ext {S A B} (c : M S A) (k1 k2 : A -> M S B) (s : S) :
  (forall a s', k1 a s' = k2 a s') -> mbind c k1 s = mbind c k2 s.
Proof.
  intros H. unfold mbind. destruct (c s) as [[a|e] s']; [apply H|reflexivity].
Qed.

Lemma number_from_children ds : forall i, map snd (number_from i ds) = ds.
Proof.
  induction ds as [|d ds IH]; intros i; simpl; [reflexivity|].
  now rewrite IH.
Qed.

(** X12. With a title list that is not empty and the realization
    "abstract" or "complete", attaching authors by "preposition" succeeds
    for every authors tree, one author or several: the result has the
    children of the title alone, its article included, followed by the
    authors tree relabeled "ATTRIB" with the preposition "von" put before
    its children, and the authors object is left as this attached tree. *)
Theorem lexicalize_titles_preposition
    (book_titles : list string) (realize : string) (authors : Diamond)
    (rnd1 rnd2 : nat) :
  book_titles <> [] ->
  realize = "abstract" \/ realize = "complete" ->
  exists title d attached,
    fst (lexicalize_titles book_titles realize None rnd1 rnd2 None) = Ok title
    /\ lexicalize_titles book_titles realize (Some "preposition") rnd1 rnd2
         (Some authors) = (Ok d, Some attached)
    /\ children d = children title ++ [attached]
    /\ article_keys d = article_keys title
    /\ d_mode attached = "ATTRIB"
    /\ d_prop attached = d_prop authors
    /\ children attached = gen_prep "von" "zugehörigkeit" :: children authors.
Proof.
  intros Hb [-> | ->].
  - unfold lexicalize_titles, gen_abstract_title. cbn -[gen_num].
    rewrite (gen_num_len book_titles Hb). cbn.
    eexists. eexists. eexists. split; [reflexivity|]. split; [reflexivity|].
    cbn. repeat split.
    unfold children. cbn. now rewrite number_from_children.
  - destruct (complete_titles_shape book_titles Hb)
      as [td [m [n [p [c1 [c2 [k1 [k2 [E [S K]]]]]]]]]].
    unfold lexicalize_titles.
    cbn -[gen_enumeration add_mode_suffix map].
    rewrite E. cbn -[add_mode_suffix]. rewrite S. cbn.
    eexists. eexists. eexists. split; [reflexivity|]. split; [reflexivity|].
    cbn. split; [reflexivity|].
    split; [destruct K as [[-> ->]|[-> ->]]; reflexivity|].
    repeat split.
    unfold children. cbn. now rewrite number_from_children.
Qed.

Lemma lexicalize_titles_preposition_witness :
  exists title d attached,
    fst (lexicalize_titles ["book title"] "abstract" None 0 0 None) = Ok title
    /\ lexicalize_titles ["book title"] "abstract" (Some "preposition") 0 0
         (Some (coordinate "und" "NP" (gen_art "a") (gen_art "b")))
       = (Ok d, Some attached)
    /\ children d = children title ++ [attached]
    /\ article_keys d = article_keys title.
Proof.
  destruct (lexicalize_titles_preposition ["book title"] "abstract"
              (coordinate "und" "NP" (gen_art "a") (gen_art "b")) 0 0)
    as [title [d [attached [H1 [H2 [H3 [H4 _]]]]]]].
  - discriminate.
  - now left.
  - exists title, d, attached. repeat split; assumption.
Defined.

(** X13. With [authors_realize="random"] the possessive form is never
    drawn for several authors: when [__sing_or_plur] does not answer
    "sing", the call is the call with "preposition", whatever the draws;
    when it answers "sing", the call is the one with the attachment drawn
    from "possessive" and "preposition". *)
Theorem lexicalize_titles_random_attachment
    (book_titles : list string) (realize : string) (authors : Diamond)
    (rnd1 rnd2 : nat) (number : string) :
  __sing_or_plur authors = Ok number ->
  lexicalize_titles book_titles realize (Some "random") rnd1 rnd2 (Some authors)
  = lexicalize_titles book_titles realize
      (Some (if (number =? "sing")%string
             then random_choice rnd2 ["possessive"; "preposition"]
             else "preposition"))
      rnd1 rnd2 (Some authors).
Proof.
  intros Hn.
  assert (K : forall how,
    how = "possessive" \/ how = "preposition" ->
    (if (number =? "sing")%string
     then random_choice rnd2 ["possessive"; "preposition"]
     else "preposition") = how ->
    lexicalize_titles book_titles realize (Some "random") rnd1 rnd2 (Some authors)
    = lexicalize_titles book_titles realize (Some how) rnd1 rnd2 (Some authors)).
  { intros how Hh E. unfold lexicalize_titles.
    replace (str_in how ["possessive"; "preposition"; "random"]) with true
      by (destruct Hh as [-> | ->]; reflexivity).
    replace (str_in "random" ["possessive"; "preposition"; "random"]) with true
      by reflexivity.
    destruct (str_in realize ["abstract"; "complete"; "pronoun"; "random"]);
      [|reflexivity].
    cbn -[gen_abstract_title gen_personal_pronoun gen_enumeration add_mode_suffix
          map __sing_or_plur String.eqb random_choice is_str pop_articles].
    apply mbind_ext. intros td s'.
    cbn -[__sing_or_plur String.eqb random_choice pop_articles].
    rewrite Hn. cbn -[String.eqb random_choice pop_articles].
    unfold mbind, lift, mret, modify.
    destruct (number =? "sing")%string eqn:Es;
      cbn -[String.eqb random_choice pop_articles];
      rewrite ?Es; cbn -[String.eqb random_choice pop_articles]; rewrite ?E;
      destruct Hh as [-> | ->]; cbn -[pop_articles]; rewrite ?Es;
      try reflexivity; try discriminate E. }
  apply K; [|reflexivity].
  destruct (number =? "sing")%string; [|now right].
  apply random_choice_of_two.
Qed.

Lemma lexicalize_titles_random_attachment_witness :
  lexicalize_titles ["book title"] "abstract" (Some "random") 3 4
    (Some (coordinate "und" "NP" (gen_art "a") (gen_art "b")))
  = lexicalize_titles ["book title"] "abstract" (Some "preposition") 3 4
      (Some (coordinate "und" "NP" (gen_art "a") (gen_art "b"))).
Proof.
  apply (lexicalize_titles_random_attachment ["book title"] "abstract"
           (coordinate "und" "NP" (gen_art "a") (gen_art "b")) 3 4 "plur").
  reflexivity.
Defined.

(** X14. A title realized as a pronoun takes no author: with any authors
    tree, any title list and any attachment, [lexicalize_titles] in
    "pronoun" mode fails with the assertion of the pronoun branch and
    leaves the authors tree as it was; so does the "random" realization
    without an attachment when the draw falls on "pronoun". *)
Theorem lexicalize_titles_pronoun_with_authors
    (book_titles : list string) (authors_realize : option string)
    (authors : Diamond) (rnd1 rnd2 : nat) :
  (match authors_realize with
   | None => true
   | Some a => str_in a ["possessive"; "preposition"; "random"]
   end = true ->
   lexicalize_titles book_titles "pronoun" authors_realize rnd1 rnd2 (Some authors)
   = (Raise (AssertionError
               "can't realize title as pronoun with an author, e.g. 'Chomskys es'"),
      Some authors))
  /\ (rnd1 mod 3 = 2 ->
      lexicalize_titles book_titles "random" None rnd1 rnd2 (Some authors)
      = (Raise (AssertionError
                  "can't realize title as pronoun with an author, e.g. 'Chomskys es'"),
         Some authors)).
Proof.
  split.
  - intros H. unfold lexicalize_titles. rewrite H. reflexivity.
  - intros H. unfold lexicalize_titles, random_choice. simpl length.
    rewrite H. reflexivity.
Qed.

Lemma lexicalize_titles_pronoun_with_authors_witness :
  lexicalize_titles ["a book"] "pronoun" (Some "preposition") 0 0
    (Some (gen_art "def"))
  = (Raise (AssertionError
              "can't realize title as pronoun with an author, e.g. 'Chomskys es'"),
     Some (gen_art "def"))
  /\ lexicalize_titles ["a book"] "random" None 5 0 (Some (gen_art "def"))
     = (Raise (AssertionError
                 "can't realize title as pronoun with an author, e.g. 'Chomskys es'"),
        Some (gen_art "def")).
Proof.
  destruct (lexicalize_titles_pronoun_with_authors ["a book"] (Some "preposition")
              (gen_art "def") 0 0) as [A _].
  destruct (lexicalize_titles_pronoun_with_authors ["a book"] None
              (gen_art "def") 5 0) as [_ B].
  split; [apply A|apply B]; reflexivity.
Defined.

(** X15. The empty title list and the single title: in "pronoun" mode
    [lexicalize_titles] returns for both, a neuter pronoun that is plural
    for no title and singular for one, whereas in "abstract" mode no title
    is rejected by the assertion on the count and one title gives the
    singular "Buch" with the definite article. *)
Theorem lexicalize_titles_few_titles (book_titles : list string) (rnd1 rnd2 : nat) :
  length book_titles <= 1 ->
  lexicalize_titles book_titles "pronoun" None rnd1 rnd2 None
  = (Ok (create_diamond "" "sem-obj" ""
           [gen_pers 3; create_diamond "PRO" "" "perspro" [];
            gen_gender "neut";
            create_diamond "NUM" "" (if Nat.eqb (length book_titles) 1 then "sing" else "plur") []]),
     None)
  /\ lexicalize_titles book_titles "abstract" None rnd1 rnd2 None
     = (if Nat.eqb (length book_titles) 1
        then Ok (create_diamond "" "artefaktum" "Buch"
                   [create_diamond "NUM" "" "sing" []; gen_art "def"])
        else Raise (AssertionError "count has to be >= 1"),
        None).
Proof.
  intros H. destruct book_titles as [|t [|t' ts]]; simpl in H; try lia;
    split; reflexivity.
Qed.

Lemma lexicalize_titles_few_titles_witness :
  lexicalize_titles [] "pronoun" None 0 0 None
  = (Ok (create_diamond "" "sem-obj" ""
           [gen_pers 3; create_diamond "PRO" "" "perspro" [];
            gen_gender "neut"; create_diamond "NUM" "" "plur" []]),
     None)
  /\ lexicalize_titles [] "abstract" None 0 0 None
     = (Raise (AssertionError "count has to be >= 1"), None).
Proof.
  apply (lexicalize_titles_few_titles [] 0 0). simpl. lia.
Defined.

(** X16. Without an authors tree the attachment is of no effect: for a
    realization other than "random" and any admissible [authors_realize],
    [lexicalize_titles] returns what it returns without it. *)
Theorem lexicalize_titles_attachment_unused
    (book_titles : list string) (realize how : string) (rnd1 rnd2 : nat) :
  realize <> "random" ->
  str_in how ["possessive"; "preposition"; "random"] = true ->
  lexicalize_titles book_titles realize (Some how) rnd1 rnd2 None
  = lexicalize_titles book_titles realize None rnd1 rnd2 None.
Proof.
  intros Hr Hh. unfold lexicalize_titles. rewrite Hh.
  destruct (String.eqb_spec realize "random") as [E|_]; [contradiction|].
  reflexivity.
Qed.

Lemma lexicalize_titles_attachment_unused_witness :
  lexicalize_titles ["a book"; "book 2"] "complete" (Some "possessive") 0 0 None
  = lexicalize_titles ["a book"; "book 2"] "complete" None 0 0 None.
Proof.
  apply (lexicalize_titles_attachment_unused ["a book"; "book 2"] "complete"
           "possessive" 0 0).
  - discriminate.
  - reflexivity.
Defined.

(** ** Keywords and programming languages *)

Lemma gen_abstract_keywords_len (kws : list string) :
  kws <> [] ->
  gen_abstract_keywords (len kws)
  = Ok (create_diamond "" "art" "Thema"
          [create_diamond "NUM" "" (if (len kws =? 1)%Z then "sing" else "plur") [];
           gen_art "def"]).
Proof.
  intros H. unfold gen_abstract_keywords. now rewrite (gen_num_len kws H).
Qed.

(** The head of the patient phrase of the keywords: "Thema" with its count
    marker first. *)
Lemma keywords_patiens_shape (kws : list string) realize p :
  kws <> [] ->
  (if (realize =? "abstract")%string then gen_abstract_keywords (len kws)
   else if (realize =? "complete")%string then gen_keywords kws "N"
   else Raise UnboundLocalError) = Ok p ->
  d_prop p = "Thema"
  /\ exists rest,
       children p
       = create_diamond "NUM" "" (if (len kws =? 1)%Z then "sing" else "plur") []
         :: gen_art "def" :: rest.
Proof.
  intros H.
  destruct (realize =? "abstract")%string.
  { rewrite (gen_abstract_keywords_len kws H). intros [= <-].
    split; [reflexivity|]. now exists []. }
  destruct (realize =? "complete")%string; [|discriminate].
  unfold gen_keywords. rewrite (gen_abstract_keywords_len kws H).
  cbn -[gen_enumeration mapM gen_keyword add_mode_suffix].
  match goal with
  | |- context [rbind ?x _] => destruct x as [[|r]|e]
  end; cbn -[add_mode_suffix]; try discriminate.
  intros [= <-]. split; [reflexivity|].
  cbn. eexists. reflexivity.
Qed.

(** X17. [lexicalize_keywords] has no assertion on the lexeme either: for
    a lexeme other than "behandeln", "beschreiben", "eingehen" and
    "aufgreifen" it returns [None] instead of a tree, and by then it has
    relabeled its agent, the title if there is one and the authors
    otherwise, to "AGENS". *)
Theorem lexicalize_keywords_unsupported_lexeme
    (kws : list string) (realize lexeme : string) :
  kws <> [] ->
  str_in realize ["abstract"; "complete"] = true ->
  str_in lexeme ["behandeln"; "beschreiben"; "eingehen"; "aufgreifen"] = false ->
  (forall title authors,
     lexicalize_keywords kws realize lexeme (AgentArgs (Some title) authors)
     = (Ok None, AgentArgs (Some (change_mode title "AGENS")) authors))
  /\ (forall authors,
        lexicalize_keywords kws realize lexeme (AgentArgs None (Some authors))
        = (Ok None, AgentArgs None (Some (change_mode authors "AGENS")))).
Proof.
  intros Hk Hr Hl.
  destruct (keywords_patiens_ok kws realize Hk Hr) as [p Hp].
  pose proof (str_in_false_eqb lexeme "behandeln" _ Hl ltac:(simpl; tauto)) as E1.
  pose proof (str_in_false_eqb lexeme "beschreiben" _ Hl ltac:(simpl; tauto)) as E2.
  pose proof (str_in_false_eqb lexeme "eingehen" _ Hl ltac:(simpl; tauto)) as E3.
  pose proof (str_in_false_eqb lexeme "aufgreifen" _ Hl ltac:(simpl; tauto)) as E4.
  split; intros; unfold lexicalize_keywords; rewrite Hr;
    cbn -[gen_abstract_keywords gen_keywords str_in String.eqb];
    rewrite Hp; cbn -[String.eqb]; try destruct authors;
    cbn -[String.eqb]; rewrite E1, E2, E3, E4; reflexivity.
Qed.

Lemma lexicalize_keywords_unsupported_lexeme_witness :
  lexicalize_keywords ["parsing"] "abstract" "erwähnen"
    (AgentArgs (Some (gen_title "On Syntax")) None)
  = (Ok None, AgentArgs (Some (change_mode (gen_title "On Syntax") "AGENS")) None).
Proof.
  apply (proj1 (lexicalize_keywords_unsupported_lexeme ["parsing"] "abstract"
                  "erwähnen" ltac:(discriminate) eq_refl eq_refl)).
Defined.

(** X18. With authors and no title, the authors are the agent of
    [lexicalize_keywords]: for at least one keyword, a known realization
    and a known lexeme the call returns a sentence whose agent is the
    authors tree relabeled "AGENS", the final value of the authors object,
    and whose patient phrase is "Thema" with the mode "PATIENS" and, as
    first child, the count marker: singular for one keyword and plural for
    more. *)
Theorem lexicalize_keywords_by_authors
    (kws : list string) (realize lexeme : string) (authors : Diamond) :
  kws <> [] ->
  str_in realize ["abstract"; "complete"] = true ->
  str_in lexeme ["behandeln"; "beschreiben"; "eingehen"; "aufgreifen"] = true ->
  exists tree patiens,
    lexicalize_keywords kws realize lexeme (AgentArgs None (Some authors))
    = (Ok (Some tree), AgentArgs None (Some (change_mode authors "AGENS")))
    /\ agens_of tree = Some (change_mode authors "AGENS")
    /\ patiens_of (clause_of tree) = Some patiens
    /\ d_mode patiens = "PATIENS" /\ d_prop patiens = "Thema"
    /\ nth_error (children patiens) 0
       = Some (create_diamond "NUM" ""
                 (if (len kws =? 1)%Z then "sing" else "plur") []).
Proof.
  intros Hk Hr Hl.
  destruct (keywords_patiens_ok kws realize Hk Hr) as [p Hp].
  destruct (keywords_patiens_shape kws realize p Hk Hp) as [Pp [rest Pc]].
  apply str_in_cases in Hl. simpl in Hl.
  unfold lexicalize_keywords. rewrite Hr.
  cbn -[gen_abstract_keywords gen_keywords str_in String.eqb].
  rewrite Hp. cbn -[str_in String.eqb].
  destruct Hl as [<-|[<-|[<-|[<-|[]]]]]; cbn;
    eexists; eexists; (split; [reflexivity|]); cbn;
    (split; [reflexivity|]); (split; [reflexivity|]);
    (split; [reflexivity|]); (split; [exact Pp|]);
    unfold children in *; cbn; rewrite ?number_from_children; rewrite Pc;
    reflexivity.
Qed.

Lemma lexicalize_keywords_by_authors_witness :
  exists tree patiens,
    lexicalize_keywords ["parsing"; "semantics"] "complete" "eingehen"
      (AgentArgs None (Some (create_diamond "NP" "nachname" "Grishman" [])))
    = (Ok (Some tree),
       AgentArgs None
         (Some (change_mode (create_diamond "NP" "nachname" "Grishman" []) "AGENS")))
    /\ agens_of tree
       = Some (change_mode (create_diamond "NP" "nachname" "Grishman" []) "AGENS")
    /\ patiens_of (clause_of tree) = Some patiens
    /\ nth_error (children patiens) 0 = Some (create_diamond "NUM" "" "plur" []).
Proof.
  destruct (lexicalize_keywords_by_authors ["parsing"; "semantics"] "complete"
              "eingehen" (create_diamond "NP" "nachname" "Grishman" []))
    as [tree [p [H1 [H2 [H3 [_ [_ H6]]]]]]].
  - discriminate.
  - reflexivity.
  - reflexivity.
  - exists tree, p. repeat split; assumption.
Defined.

Lemma gen_plang_languages plang mode langs :
  plang <> "" -> sql_array_to_list plang = langs -> langs <> [] ->
  exists enum,
    gen_plang plang mode
    = Ok (create_diamond mode "art" "Programmiersprache"
            [create_diamond "NUM" "" (if (len langs =? 1)%Z then "sing" else "plur") [];
             gen_art "def"; enum])
    /\ d_mode enum = "NOMERG"
    /\ d_prop enum = match langs with
                     | [lang] => lang
                     | _ => "und"
                     end.
Proof.
  intros Hp E Hl. unfold gen_plang.
  destruct (String.eqb_spec plang ""); [contradiction|].
  cbn -[gen_enumeration mapM sql_array_to_list gen_num add_mode_suffix].
  rewrite E, (gen_num_len langs Hl).
  cbn -[gen_enumeration mapM add_mode_suffix].
  rewrite (mapM_ok _ (fun proglang => create_diamond "N" "sorte" proglang
                                        [create_diamond "NUM" "" "sing" []]))
    by reflexivity.
  cbn -[gen_enumeration map add_mode_suffix].
  destruct langs as [|l1 [|l2 ls]]; [contradiction| |].
  - cbn. eexists. split; [reflexivity|]. split; reflexivity.
  - destruct (gen_enumeration_und
                (map (fun proglang => create_diamond "N" "sorte" proglang
                                        [create_diamond "NUM" "" "sing" []])
                     (l1 :: l2 :: ls)) "N") as [nested [final En]].
    { simpl. lia. }
    rewrite En. cbn -[add_mode_suffix].
    eexists. split; [reflexivity|].
    rewrite add_mode_suffix_mode, add_mode_suffix_prop. split; reflexivity.
Qed.

(** X19. [gen_plang] rejects the empty string and a string without a
    bracketed language by an assertion. For a string that decodes to at
    least one language it returns "Programmiersprache" in the mode asked
    for, with three children: the count marker, singular for one language
    and plural for more, the definite article, and the languages under the
    mode "NOMERG", anchored at the language itself when there is one and at
    "und" when there are several. *)
Theorem gen_plang_cases (plang mode : string) :
  (plang = "" ->
   gen_plang plang mode
   = Raise (AssertionError "at least one programming language should be defined"))
  /\ (plang <> "" -> sql_array_to_list plang = [] ->
      gen_plang plang mode = Raise (AssertionError "count has to be >= 1"))
  /\ (forall langs,
        plang <> "" -> sql_array_to_list plang = langs -> langs <> [] ->
        exists enum,
          gen_plang plang mode
          = Ok (create_diamond mode "art" "Programmiersprache"
                  [create_diamond "NUM" ""
                     (if (len langs =? 1)%Z then "sing" else "plur") [];
                   gen_art "def"; enum])
          /\ d_mode enum = "NOMERG"
          /\ d_prop enum = match langs with
                           | [lang] => lang
                           | _ => "und"
                           end).
Proof.
  split; [|split].
  - intros ->. reflexivity.
  - intros Hp E. unfold gen_plang.
    destruct (String.eqb_spec plang ""); [contradiction|].
    cbn -[sql_array_to_list]. rewrite E. reflexivity.
  - intros langs. apply gen_plang_languages.
Qed.

Lemma gen_plang_cases_witness :
  gen_plang "" "N"
  = Raise (AssertionError "at least one programming language should be defined")
  /\ gen_plang "Ada" "N" = Raise (AssertionError "count has to be >= 1")
  /\ exists enum,
       gen_plang "[Ada][Scheme]" "N"
       = Ok (create_diamond "N" "art" "Programmiersprache"
               [create_diamond "NUM" "" "plur" []; gen_art "def"; enum])
       /\ d_mode enum = "NOMERG" /\ d_prop enum = "und".
Proof.
  split; [|split].
  - apply (proj1 (gen_plang_cases "" "N")). reflexivity.
  - apply (proj1 (proj2 (gen_plang_cases "Ada" "N"))); [discriminate|reflexivity].
  - apply (proj2 (proj2 (gen_plang_cases "[Ada][Scheme]" "N")) ["Ada"; "Scheme"]).
    + discriminate.
    + reflexivity.
    + discriminate.
Defined.

(** X20. [lexicalize_plang] in "embedded" mode looks at neither title nor
    authors: it returns what [gen_plang] returns in the mode "N" and leaves
    both objects as they were. In "complete" mode without title and authors
    it fails with its assertion. With a title, "complete" mode relabels the
    title to "AGENS" before it builds the phrase of the languages, so that
    a failure of [gen_plang] leaves the title relabeled; and a realization
    that is neither "embedded" nor "complete" returns [None]. *)
Theorem lexicalize_plang_modes (plang : string) (args : agent_args) :
  lexicalize_plang plang "embedded" args
  = (match gen_plang plang "N" with
     | Ok d => Ok (Some d)
     | Raise e => Raise e
     end, args)
  /\ lexicalize_plang plang "complete" (AgentArgs None None)
     = (Raise (AssertionError
                 "requires either a lexicalized title, a lexicalized set of authors or realize parameter == 'embedded'"),
        AgentArgs None None)
  /\ (forall title e,
        lexicalized_title args = Some title ->
        gen_plang plang "PATIENS" = Raise e ->
        lexicalize_plang plang "complete" args
        = (Raise e, AgentArgs (Some (change_mode title "AGENS"))
                              (lexicalized_authors args)))
  /\ (forall realize,
        truthy (lexicalized_title args) || truthy (lexicalized_authors args) = true ->
        str_in realize ["embedded"; "complete"] = false ->
        lexicalize_plang plang realize args = (Ok None, args)).
Proof.
  refine (conj _ (conj _ (conj _ _))).
  - unfold lexicalize_plang. cbn -[gen_plang].
    rewrite !orb_true_r. cbn -[gen_plang].
    destruct (gen_plang plang "N"); reflexivity.
  - reflexivity.
  - intros title e Ht He. destruct args as [t a]. simpl in Ht. subst t.
    unfold lexicalize_plang. cbn -[gen_plang]. rewrite He. reflexivity.
  - intros realize Ht Hr. unfold lexicalize_plang.
    pose proof (str_in_false_eqb realize "embedded" _ Hr ltac:(simpl; tauto)) as E1.
    pose proof (str_in_false_eqb realize "complete" _ Hr ltac:(simpl; tauto)) as E2.
    cbn -[String.eqb]. rewrite E1, E2, orb_false_r, Ht. reflexivity.
Qed.

Lemma lexicalize_plang_modes_witness :
  lexicalize_plang "" "complete" (AgentArgs (Some (gen_title "foo")) None)
  = (Raise (AssertionError "at least one programming language should be defined"),
     AgentArgs (Some (change_mode (gen_title "foo") "AGENS")) None)
  /\ lexicalize_plang "[Ada]" "abstract" (AgentArgs (Some (gen_title "foo")) None)
     = (Ok None, AgentArgs (Some (gen_title "foo")) None).
Proof.
  destruct (lexicalize_plang_modes "" (AgentArgs (Some (gen_title "foo")) None))
    as [_ [_ [F _]]].
  destruct (lexicalize_plang_modes "[Ada]" (AgentArgs (Some (gen_title "foo")) None))
    as [_ [_ [_ N]]].
  split.
  - apply (F (gen_title "foo")); reflexivity.
  - apply N; reflexivity.
Defined.

(** ** Counting coordinations *)

Lemma count_coordinate anchor anchor' mode l r :
  count_coordinations anchor (coordinate anchor' mode l r)
  = (if (anchor' =? anchor)%string then 1 else 0)
    + (count_coordinations anchor l + count_coordinations anchor r).
Proof. simpl. now rewrite Nat.add_0_r. Qed.

Lemma count_item anchor d :
  d_nom d <> "konjunktion" -> count_coordinations anchor d = 0.
Proof.
  destruct d as [m n p cs]. simpl. intros H.
  destruct (String.eqb_spec n "konjunktion"); [contradiction|reflexivity].
Qed.

Lemma count_left_chain anchor anchor' mode rest : forall first,
  d_nom first <> "konjunktion" ->
  Forall (fun d => d_nom d <> "konjunktion") rest ->
  count_coordinations anchor (left_chain anchor' mode first rest)
  = if (anchor' =? anchor)%string then length rest else 0.
Proof.
  induction rest as [|x rest IH] using rev_ind; intros first Hf Hr.
  - simpl. rewrite (count_item anchor first Hf). now destruct (anchor' =? anchor)%string.
  - apply Forall_app in Hr. destruct Hr as [Hr Hx]. inversion Hx as [|? ? Hx' _].
    rewrite left_chain_snoc, count_coordinate, (IH first Hf Hr),
      (count_item anchor x Hx'), length_app.
    destruct (anchor' =? anchor)%string; simpl; lia.
Qed.

(** X21. An enumeration of [n >= 2] items that are no coordinations
    themselves holds exactly one "und" coordination and [n - 2] "komma"
    coordinations ("A, B, C und D"), and [gen_komma_enumeration] of such
    items holds [n - 1] "komma" coordinations and no "und". *)
Theorem gen_enumeration_counts (items : list Diamond) (mode : string) :
  2 <= length items ->
  Forall (fun d => d_nom d <> "konjunktion") items ->
  (exists d,
     gen_enumeration items mode = Ok (Node d)
     /\ d_mode d = mode
     /\ count_coordinations "und" d = 1
     /\ count_coordinations "komma" d = length items - 2)
  /\ (exists d,
        gen_komma_enumeration items mode = Ok (Node d)
        /\ d_mode d = mode
        /\ count_coordinations "und" d = 0
        /\ count_coordinations "komma" d = length items - 1).
Proof.
  intros H F. destruct items as [|a [|b rest]]; simpl in H; try lia.
  inversion F as [|? ? Ha F']. subst. split.
  - destruct (snoc_cases rest) as [->|[r [x ->]]].
    + exists (coordinate "und" mode a b). inversion F' as [|? ? Hb _].
      split; [reflexivity|]. split; [reflexivity|].
      rewrite !count_coordinate, !(count_item _ a Ha), !(count_item _ b Hb).
      split; reflexivity.
    + eexists. split; [apply gen_enumeration_chain|]. split; [reflexivity|].
      rewrite app_comm_cons in F'. apply Forall_app in F'.
      destruct F' as [Fr Fx]. inversion Fx as [|? ? Hx _].
      rewrite !count_coordinate, !(count_left_chain _ "komma" mode (b :: r) a Ha Fr),
        !(count_item _ x Hx).
      simpl. rewrite length_app. simpl. split; lia.
  - eexists. split; [apply gen_komma_enumeration_chain|]. split.
    + apply left_chain_mode. discriminate.
    + rewrite !(count_left_chain _ "komma" mode (b :: rest) a Ha F').
      simpl. split; lia.
Qed.

Lemma gen_enumeration_counts_witness :
  exists d,
    gen_enumeration [gen_art "a"; gen_art "b"; gen_art "c"; gen_art "d"] "NP"
    = Ok (Node d)
    /\ count_coordinations "und" d = 1
    /\ count_coordinations "komma" d = 2.
Proof.
  destruct (gen_enumeration_counts
              [gen_art "a"; gen_art "b"; gen_art "c"; gen_art "d"] "NP")
    as [[d [H1 [_ [H2 H3]]]] _].
  - simpl. lia.
  - repeat constructor; discriminate.
  - exists d. repeat split; assumption.
Defined.

(** ** Anchors without blanks *)

Lemma replace_space_no_blank s :
  has_blank (replace_space s) = false
  /\ String.length (replace_space s) = String.length s
  /\ (has_blank s = false -> replace_space s = s).
Proof.
  induction s as [|c s [IH1 [IH2 IH3]]]; [now repeat split|].
  simpl. destruct (Ascii.eqb_spec c " "%char) as [->|Hc].
  - simpl. repeat split; [exact IH1|now rewrite IH2|discriminate].
  - simpl. destruct (Ascii.eqb_spec c " "%char); [contradiction|]. simpl.
    repeat split; [exact IH1|now rewrite IH2|].
    intros H. now rewrite (IH3 H).
Qed.

(** X22. The anchor of a title tree and of a keyword tree holds no blank:
    [gen_title] and [gen_keyword] put an underscore for every blank, keep
    the length, and leave a string without blanks as it is. *)
Theorem anchors_without_blanks (s mode : string) :
  (has_blank (d_prop (gen_title s)) = false
   /\ String.length (d_prop (gen_title s)) = String.length s
   /\ (has_blank s = false -> d_prop (gen_title s) = s))
  /\ exists d,
       gen_keyword s mode = Ok d
       /\ has_blank (d_prop d) = false
       /\ String.length (d_prop d) = String.length s
       /\ (has_blank s = false -> d_prop d = s).
Proof.
  destruct (replace_space_no_blank s) as [H1 [H2 H3]]. split.
  - unfold gen_title, ensure_unicode. cbn. now repeat split.
  - eexists. split; [reflexivity|]. cbn. now repeat split.
Qed.

Lemma anchors_without_blanks_witness :
  d_prop (gen_title "Formal_Languages") = "Formal_Languages".
Proof.
  apply (proj1 (anchors_without_blanks "Formal_Languages" "N")). reflexivity.
Defined.

(** ** Pronouns *)

(** X23. [gen_personal_pronoun] returns exactly when the person is 1, 2 or
    3 and either the count is above 1 or the gender is one of "masc",
    "fem", "neut" and the empty string; otherwise it fails with an
    assertion. So for a count above 1 any gender whatever is accepted, and
    for a count of at most 1 the gender "mask", which [gen_gender] takes
    by default, is rejected. *)
Theorem gen_personal_pronoun_accepts
    (count : Z) (gender : string) (person : Z) (mode : string) :
  let accepted :=
    existsb (Z.eqb person) [1; 2; 3]%Z
    && ((count >? 1)%Z || str_in gender ["masc"; "fem"; "neut"; ""]) in
  (accepted = true -> exists d, gen_personal_pronoun count gender person mode = Ok d)
  /\ (accepted = false ->
      gen_personal_pronoun count gender person mode = Raise (AssertionError "")).
Proof.
  cbv zeta. unfold gen_personal_pronoun, gen_pronoun.
  destruct (existsb (Z.eqb person) [1; 2; 3]%Z); cbn -[String.eqb Z.gtb Z.eqb];
    [|split; [discriminate|reflexivity]].
  destruct (count >? 1)%Z; cbn -[String.eqb Z.eqb].
  { split; [|discriminate]. intros _. destruct (count =? 1)%Z; cbn; eauto. }
  unfold str_in. cbn -[String.eqb Z.eqb].
  destruct (String.eqb_spec gender "") as [->|Hg]; cbn -[String.eqb Z.eqb].
  { split; [|discriminate]. intros _. destruct (count =? 1)%Z; cbn; eauto. }
  rewrite orb_false_r.
  destruct (gender =? "masc")%string; cbn -[String.eqb Z.eqb].
  { split; [|discriminate]. intros _. destruct (count =? 1)%Z; cbn; eauto. }
  destruct (gender =? "fem")%string; cbn -[String.eqb Z.eqb].
  { split; [|discriminate]. intros _. destruct (count =? 1)%Z; cbn; eauto. }
  destruct (gender =? "neut")%string; cbn -[String.eqb Z.eqb].
  { split; [|discriminate]. intros _. destruct (count =? 1)%Z; cbn; eauto. }
  split; [discriminate|reflexivity].
Qed.

Lemma gen_personal_pronoun_accepts_witness :
  (exists d, gen_personal_pronoun 2 "mask" 3 "" = Ok d)
  /\ gen_personal_pronoun 1 "mask" 3 "" = Raise (AssertionError "").
Proof.
  split.
  - apply (proj1 (gen_personal_pronoun_accepts 2 "mask" 3 "")). reflexivity.
  - apply (proj2 (gen_personal_pronoun_accepts 1 "mask" 3 "")). reflexivity.
Defined.

(** ** Contrasting two clauses *)

(** X24. [fake_lastbook_nomatch] takes the clause about the former book
    first and the clause about the present book second, and puts them the
    other way round: the first child of the result is the second argument
    relabeled "HS", the second child is the "wohingegen" node whose only
    child is the first argument relabeled "VL"; both objects are changed in
    their mode only and end as these children. *)
Theorem fake_lastbook_nomatch_clauses (lastbook_message message : Diamond) :
  exists tree ns,
    fake_lastbook_nomatch (ContrastArgs lastbook_message message)
    = (Ok tree, ContrastArgs (change_mode lastbook_message "VL")
                             (change_mode message "HS"))
    /\ children tree = [change_mode message "HS"; ns]
    /\ d_prop ns = "wohingegen"
    /\ children ns = [change_mode lastbook_message "VL"]
    /\ same_but_mode message (change_mode message "HS")
    /\ same_but_mode lastbook_message (change_mode lastbook_message "VL").
Proof.
  eexists. eexists. split; [reflexivity|]. cbn.
  split; [reflexivity|]. split; [reflexivity|]. split; [reflexivity|].
  split; now repeat split.
Qed.
